(** * Carbon language server: session engine of [server/src/server.ts]

    A shallow embedding of the server's handlers:
    - the completion pair [onCompletion] / [onCompletionResolve],
    - the settings cache [getDocumentSettings] with its [documentSettings] map,
    - the validation pass [validateTextDocument],
    - the session as a transition system over the protocol events.

    Strings stand for JavaScript strings, [Z] for the integral numbers the
    handlers compare against, [gmap string _] for the [Map<string, _>] of
    cached settings (only [get], [set], [delete] and [clear] are used on it,
    so its iteration order is never observed). *)

From Stdlib Require Import ZArith Ascii String.
From stdpp Require Import gmap strings list.

Local Open Scope string_scope.
Local Open Scope Z_scope.
Local Open Scope list_scope.

(** ** Protocol data shared by the handlers *)

Record Position := mkPosition { line : Z; character : Z }.

Record Range := mkRange { range_start : Position; range_end : Position }.

(** ** Completion items *)

Module Completion.

(** The [any] carried in [CompletionItem.data]: the scalar JSON values.
    [===] on two of them is equality of constructor and payload. *)
Inductive LSPAny :=
| LSPnull
| LSPbool (b : bool)
| LSPnumber (n : Z)
| LSPstring (s : string).

#[global] Instance LSPAny_eq_dec : EqDecision LSPAny.
Proof. solve_decision. Defined.

(** [CompletionItemKind.Text] *)
Definition CompletionItemKind_Text : Z := 1.

(** The fields of [CompletionItem] the server reads or writes; an absent
    optional field ([undefined]) is [None]. *)
Record CompletionItem := mkItem {
  label : string;
  kind : option Z;
  data : option LSPAny;
  detail : option string;
  documentation : option string
}.

#[global] Instance CompletionItem_eq_dec : EqDecision CompletionItem.
Proof. solve_decision. Defined.

(** [{ label, kind: CompletionItemKind.Text, data }] *)
Definition entry (l : string) (d : Z) : CompletionItem :=
  {| label := l; kind := Some CompletionItemKind_Text;
     data := Some (LSPnumber d); detail := None; documentation := None |}.

(** The parameter of a completion request. *)
Record TextDocumentPositionParams := mkPositionParams {
  textDocument_uri : string;
  position : Position
}.

(** The array literal under the comment VARIABLES. *)
Definition VARIABLES : list CompletionItem :=
  [ entry "var" 3;
    entry "f16" 2; entry "f32" 2; entry "f64" 2; entry "f128" 2;
    entry "BFloat16" 2;
    entry "String" 4; entry "StringView" 4;
    entry "i8" 1; entry "i16" 1; entry "i32" 1; entry "i64" 1;
    entry "i128" 1; entry "i256" 1;
    entry "u8" 1; entry "u16" 1; entry "u32" 1; entry "u64" 1;
    entry "u128" 1; entry "u256" 1 ].

(** The array literal under the comment FUNCTIONS. *)
Definition FUNCTIONS : list CompletionItem :=
  [ entry "if" 6; entry "while" 6; entry "then" 6; entry "else" 6;
    entry "Carbon" 6;
    entry "Swap" 6; entry "Size" 6; entry "fn" 6; entry "Slice" 6;
    entry "in" 6 ].

(** [connection.onCompletion]: the handler evaluates one array literal, so
    every call builds the same fresh sequence and never reads its argument. *)
Definition onCompletion (_textDocumentPosition : TextDocumentPositionParams)
  : list CompletionItem :=
  VARIABLES ++ FUNCTIONS.

(** [item.detail = d; item.documentation = doc] *)
Definition assign (item : CompletionItem) (d doc : string) : CompletionItem :=
  {| label := label item; kind := kind item; data := data item;
     detail := Some d; documentation := Some doc |}.

(** [item.data === n] *)
Definition strict_eq (d : option LSPAny) (n : Z) : bool :=
  bool_decide (d = Some (LSPnumber n)).

(** [connection.onCompletionResolve]: the chain of [if / else if] on
    [item.data], then [return item]. *)
Definition onCompletionResolve (item : CompletionItem) : CompletionItem :=
  if strict_eq (data item) 1 then
    assign item "Carbon Signed Integer Type"
      "Contains a integer value. You can set the number of bits by using i16, i32, i64, i128, or i256."
  else if strict_eq (data item) 2 then
    assign item "Carbon Floating Point Type" "This is a floating point"
  else if strict_eq (data item) 3 then
    assign item "Carbon Var" "A var declares a variable."
  else if strict_eq (data item) 4 then
    assign item "Carbon String"
      "A String is a byte sequence treated as containing UTF-8 encoded text. A StringView is a read only variation of a String."
  else if strict_eq (data item) 5 then
    assign item "Carbon Floating Point Type"
      "Contains a floating point value that rounds-to-nearest. You can set the number of bits by using f16, f32, f64, and f128. BFloat16 is also supported."
  else if strict_eq (data item) 6 then
    assign item "Carbon Function" "Function - Description to be added."
  else item.

(** The category tag of an item, when its [data] is a number. *)
Definition tag (item : CompletionItem) : option Z :=
  match data item with
  | Some (LSPnumber n) => Some n
  | _ => None
  end.

(** The detail table as the specification words it: per tag, the short
    description and the documentation text. Compared with the handler's
    branches in the theorems below. *)
Definition CompletionDetail (n : Z) : option (string * string) :=
  match n with
  | 1 => Some ("Carbon Signed Integer Type",
               "Contains a integer value. You can set the number of bits by using i16, i32, i64, i128, or i256.")
  | 2 => Some ("Carbon Floating Point Type", "This is a floating point")
  | 3 => Some ("Carbon Var", "A var declares a variable.")
  | 4 => Some ("Carbon String",
               "A String is a byte sequence treated as containing UTF-8 encoded text. A StringView is a read only variation of a String.")
  | 5 => Some ("Carbon Floating Point Type",
               "Contains a floating point value that rounds-to-nearest. You can set the number of bits by using f16, f32, f64, and f128. BFloat16 is also supported.")
  | 6 => Some ("Carbon Function", "Function - Description to be added.")
  | _ => None
  end.

End Completion.

(** ** Settings, documents and the session state *)

Module Session.

(** [interface ExampleSettings] *)
Record ExampleSettings := mkSettings { maxNumberOfProblems : Z }.

Definition defaultSettings : ExampleSettings := {| maxNumberOfProblems := 1000 |}.

(** The part of the client's capability payload read by [onInitialize];
    a missing property is [None]. *)
Record WorkspaceClientCapabilities := mkWorkspaceCaps {
  configuration : option bool;
  workspaceFolders : option bool
}.

Record PublishDiagnosticsClientCapabilities := mkPublishCaps {
  relatedInformation : option bool
}.

Record TextDocumentClientCapabilities := mkTextDocumentCaps {
  publishDiagnostics : option PublishDiagnosticsClientCapabilities
}.

Record ClientCapabilities := mkClientCaps {
  workspace : option WorkspaceClientCapabilities;
  textDocument : option TextDocumentClientCapabilities
}.

(** [!!x] for an optional boolean property. *)
Definition truthy (x : option bool) : bool := default false x.

(** Diagnostics as [sendDiagnostics] takes them. *)
Record DiagnosticRelatedInformation := mkRelated {
  location_uri : string;
  location_range : Range;
  related_message : string
}.

Record Diagnostic := mkDiagnostic {
  severity : Z;
  range : Range;
  message : string;
  source : string;
  diagnostic_relatedInformation : option (list DiagnosticRelatedInformation)
}.

(** [DiagnosticSeverity.Warning] *)
Definition DiagnosticSeverity_Warning : Z := 2.

Record PublishDiagnosticsParams := mkPublish {
  publish_uri : string;
  diagnostics : list Diagnostic
}.

(** A document object of the text document manager: [uri], [version] and
    the result of [getText()]. *)
Record TextDocument := mkTextDocument {
  uri : string;
  version : Z;
  getText : string
}.

(** A [Thenable<ExampleSettings>] the server can hold: either
    [Promise.resolve(globalSettings)], fulfilled from the start, or the
    promise returned by the [id]-th call of
    [connection.workspace.getConfiguration]. Two occurrences of
    [GetConfiguration id] are the same promise object. *)
Inductive Thenable :=
| PromiseResolve (s : ExampleSettings)
| GetConfiguration (id : nat).

#[global] Instance ExampleSettings_eq_dec : EqDecision ExampleSettings.
Proof. solve_decision. Defined.

#[global] Instance Thenable_eq_dec : EqDecision Thenable.
Proof. solve_decision. Defined.

(** How the client settles a configuration request: with a value, [None]
    when it has no value for the section ([null]), or with an error. *)
Inductive Reply :=
| Fulfilled (v : option ExampleSettings)
| Rejected.

(** The argument of [getConfiguration]. *)
Record ConfigurationItem := mkConfigurationItem {
  scopeUri : string;
  section : string
}.

(** The session: the module-level variables of the server, the documents
    of the manager, and the traffic on the connection.
    - [heap] holds every document object created so far, addressed by its
      index; [documents] is the manager's map from URI to object, in
      insertion order (a JavaScript [Map]);
    - [requests] are the configuration requests issued, oldest first, and
      [replies] the ones the client has settled;
    - [awaiting] are the calls of [validateTextDocument] suspended at their
      [await], each with the request it waits for and its document object;
    - [sent] are the calls of [connection.sendDiagnostics], oldest first;
    - [exited] tells that the process has ended; the other fields are then
      what it held when it ended. *)
Record Server := mkServer {
  hasConfigurationCapability : bool;
  hasWorkspaceFolderCapability : bool;
  hasDiagnosticRelatedInformationCapability : bool;
  globalSettings : ExampleSettings;
  documentSettings : gmap string Thenable;
  heap : list TextDocument;
  documents : list (string * nat);
  requests : list ConfigurationItem;
  replies : gmap nat Reply;
  awaiting : list (nat * nat);
  sent : list PublishDiagnosticsParams;
  exited : bool
}.

Definition initial : Server :=
  {| hasConfigurationCapability := false;
     hasWorkspaceFolderCapability := false;
     hasDiagnosticRelatedInformationCapability := false;
     globalSettings := defaultSettings;
     documentSettings := ∅;
     heap := []; documents := [];
     requests := []; replies := ∅; awaiting := []; sent := [];
     exited := false |}.

(** Field updates. *)
Definition with_capabilities (c w d : bool) (st : Server) : Server :=
  mkServer c w d (globalSettings st) (documentSettings st) (heap st)
    (documents st) (requests st) (replies st) (awaiting st) (sent st)
    (exited st).

Definition with_globalSettings (g : ExampleSettings) (st : Server) : Server :=
  mkServer (hasConfigurationCapability st) (hasWorkspaceFolderCapability st)
    (hasDiagnosticRelatedInformationCapability st) g (documentSettings st)
    (heap st) (documents st) (requests st) (replies st) (awaiting st) (sent st)
    (exited st).

Definition with_documentSettings (m : gmap string Thenable) (st : Server) : Server :=
  mkServer (hasConfigurationCapability st) (hasWorkspaceFolderCapability st)
    (hasDiagnosticRelatedInformationCapability st) (globalSettings st) m
    (heap st) (documents st) (requests st) (replies st) (awaiting st) (sent st)
    (exited st).

Definition with_documents (h : list TextDocument) (d : list (string * nat))
    (st : Server) : Server :=
  mkServer (hasConfigurationCapability st) (hasWorkspaceFolderCapability st)
    (hasDiagnosticRelatedInformationCapability st) (globalSettings st)
    (documentSettings st) h d (requests st) (replies st) (awaiting st) (sent st)
    (exited st).

Definition with_requests (r : list ConfigurationItem) (st : Server) : Server :=
  mkServer (hasConfigurationCapability st) (hasWorkspaceFolderCapability st)
    (hasDiagnosticRelatedInformationCapability st) (globalSettings st)
    (documentSettings st) (heap st) (documents st) r (replies st)
    (awaiting st) (sent st) (exited st).

Definition with_replies (r : gmap nat Reply) (st : Server) : Server :=
  mkServer (hasConfigurationCapability st) (hasWorkspaceFolderCapability st)
    (hasDiagnosticRelatedInformationCapability st) (globalSettings st)
    (documentSettings st) (heap st) (documents st) (requests st) r
    (awaiting st) (sent st) (exited st).

Definition with_awaiting (a : list (nat * nat)) (st : Server) : Server :=
  mkServer (hasConfigurationCapability st) (hasWorkspaceFolderCapability st)
    (hasDiagnosticRelatedInformationCapability st) (globalSettings st)
    (documentSettings st) (heap st) (documents st) (requests st) (replies st)
    a (sent st) (exited st).

Definition with_sent (s : list PublishDiagnosticsParams) (st : Server) : Server :=
  mkServer (hasConfigurationCapability st) (hasWorkspaceFolderCapability st)
    (hasDiagnosticRelatedInformationCapability st) (globalSettings st)
    (documentSettings st) (heap st) (documents st) (requests st) (replies st)
    (awaiting st) s (exited st).

(** The end of the process. A call of [validateTextDocument] whose [await]
    throws returns a rejected promise that no caller handles (the calls at
    [forEach] and in [onDidChangeContent] drop it, and nothing catches);
    Node ends the process on such a rejection. *)
Definition exit (st : Server) : Server :=
  mkServer (hasConfigurationCapability st) (hasWorkspaceFolderCapability st)
    (hasDiagnosticRelatedInformationCapability st) (globalSettings st)
    (documentSettings st) (heap st) (documents st) (requests st) (replies st)
    (awaiting st) (sent st) true.

(** *** The manager's [Map] from URI to document object *)

Fixpoint synced_get (k : string) (m : list (string * nat)) : option nat :=
  match m with
  | [] => None
  | (k', v) :: m' => if decide (k' = k) then Some v else synced_get k m'
  end.

(** [Map.set]: an existing key keeps its place, a new one goes last. *)
Fixpoint synced_set (k : string) (v : nat) (m : list (string * nat))
  : list (string * nat) :=
  match m with
  | [] => [(k, v)]
  | (k', v') :: m' =>
      if decide (k' = k) then (k, v) :: m' else (k', v') :: synced_set k v m'
  end.

Definition synced_delete (k : string) (m : list (string * nat))
  : list (string * nat) :=
  filter (λ p, p.1 ≠ k) m.

(** *** Handlers *)

(** [connection.onInitialize], as far as it assigns the three flags. *)
Definition onInitialize (capabilities : ClientCapabilities) (st : Server) : Server :=
  with_capabilities
    (match workspace capabilities with
     | Some w => truthy (configuration w)
     | None => false
     end)
    (match workspace capabilities with
     | Some w => truthy (workspaceFolders w)
     | None => false
     end)
    (match textDocument capabilities with
     | Some t =>
         match publishDiagnostics t with
         | Some p => truthy (relatedInformation p)
         | None => false
         end
     | None => false
     end)
    st.

(** [getDocumentSettings(resource)]. A stored thenable is an object, hence
    truthy: [!result] holds exactly when the map has no entry. *)
Definition getDocumentSettings (resource : string) (st : Server)
  : Thenable * Server :=
  if negb (hasConfigurationCapability st) then
    (PromiseResolve (globalSettings st), st)
  else
    match documentSettings st !! resource with
    | Some result => (result, st)
    | None =>
        let result := GetConfiguration (length (requests st)) in
        let st1 :=
          with_requests
            (requests st ++
               [{| scopeUri := resource; section := "languageServerExample" |}])
            st in
        (result,
         with_documentSettings (<[resource := result]> (documentSettings st1)) st1)
    end.

(** [connection.sendDiagnostics(params)] *)
Definition sendDiagnostics (params : PublishDiagnosticsParams) (st : Server)
  : Server :=
  with_sent (sent st ++ [params]) st.

(** The statements of [validateTextDocument] between the [await] and
    [sendDiagnostics]: the text is read and the array created; the loop
    that would push onto it is inside a block comment, so the array is
    still empty when it is sent. *)
Definition computeDiagnostics (related : bool) (doc : TextDocument)
    (settings : option ExampleSettings) : list Diagnostic :=
  let text := getText doc in
  let problems := 0 in
  let diagnostics : list Diagnostic := [] in
  diagnostics.

(** [validateTextDocument] from the point where its [await] returns
    [settings]. [doc] addresses the document object the call received; its
    text is the one the object has now. *)
Definition resume (doc : nat) (settings : option ExampleSettings) (st : Server)
  : Server :=
  match heap st !! doc with
  | Some textDocument =>
      sendDiagnostics
        {| publish_uri := uri textDocument;
           diagnostics :=
             computeDiagnostics (hasDiagnosticRelatedInformationCapability st)
               textDocument settings |}
        st
  | None => st
  end.

(** [validateTextDocument(textDocument)]. [getDocumentSettings] runs at
    once. The rest runs when the thenable is fulfilled: for a fulfilled one
    that is before any other event is handled, and as the rest only appends
    to [sent] it is placed right here; for a rejected one the [await]
    throws, the call ends and with it the process; for a pending one the
    call is suspended. *)
Definition validateTextDocument (doc : nat) (st : Server) : Server :=
  match heap st !! doc with
  | None => st
  | Some textDocument =>
      let '(result, st1) := getDocumentSettings (uri textDocument) st in
      match result with
      | PromiseResolve s => resume doc (Some s) st1
      | GetConfiguration id =>
          match replies st1 !! id with
          | Some (Fulfilled v) => resume doc v st1
          | Some Rejected => exit st1
          | None => with_awaiting (awaiting st1 ++ [(id, doc)]) st1
          end
      end
  end.

(** [documents.all().forEach(validateTextDocument)] *)
Definition revalidate (st : Server) : Server :=
  foldl (λ s p, validateTextDocument p.2 s) st (documents st).

(** [connection.onDidChangeConfiguration(change)]. [settings] is
    [change.settings]: [None] when it is [null] (reading a property of it
    then throws and the handler ends), otherwise its
    [languageServerExample] property, [None] when that is falsy. *)
Definition onDidChangeConfiguration (settings : option (option ExampleSettings))
    (st : Server) : Server :=
  if hasConfigurationCapability st then
    revalidate (with_documentSettings ∅ st)
  else
    match settings with
    | None => st
    | Some languageServerExample =>
        revalidate
          (with_globalSettings (default defaultSettings languageServerExample) st)
    end.

(** [documents.onDidClose]: [documentSettings.delete(e.document.uri)] *)
Definition onDidClose (e_document_uri : string) (st : Server) : Server :=
  with_documentSettings (delete e_document_uri (documentSettings st)) st.

(** [documents.onDidChangeContent] *)
Definition onDidChangeContent (change_document : nat) (st : Server) : Server :=
  validateTextDocument change_document st.

(** *** The text document manager

    [TextDocuments] of vscode-languageserver listens on the connection and
    fires the server's handlers. A change arrives here with the text that
    results from applying its edits. *)

(** Open: a new object replaces whatever the map held for the URI, then
    the content-change handler fires. *)
Definition didOpen (u : string) (v : Z) (text : string) (st : Server) : Server :=
  let doc := length (heap st) in
  onDidChangeContent doc
    (with_documents (heap st ++ [mkTextDocument u v text])
       (synced_set u doc (documents st)) st).

(** Change: a synced document is updated in place and the content-change
    handler fires; for an unknown URI nothing happens. *)
Definition didChange (u : string) (v : Z) (text : string) (st : Server) : Server :=
  match synced_get u (documents st) with
  | Some doc =>
      onDidChangeContent doc
        (with_documents (<[doc := mkTextDocument u v text]> (heap st))
           (documents st) st)
  | None => st
  end.

(** Close: a synced document leaves the map and the close handler fires. *)
Definition didClose (u : string) (st : Server) : Server :=
  match synced_get u (documents st) with
  | Some doc =>
      onDidClose u
        (with_documents (heap st) (synced_delete u (documents st)) st)
  | None => st
  end.

(** *** The client settling a configuration request

    The promise of request [id] settles once. On fulfilment the suspended
    calls waiting for it resume in the order they were suspended; on
    rejection each of them ends with the error, which nothing handles, and
    the process ends. *)
Definition settle (id : nat) (r : Reply) (st : Server) : Server :=
  if bool_decide (id < length (requests st))%nat
     && bool_decide (replies st !! id = None) then
    let waiting := filter (λ p, p.1 = id) (awaiting st) in
    let st1 :=
      with_replies (<[id := r]> (replies st))
        (with_awaiting (filter (λ p, p.1 ≠ id) (awaiting st)) st) in
    match r with
    | Fulfilled v => foldl (λ s p, resume p.2 v s) st1 waiting
    | Rejected => exit st1
    end
  else st.

(** *** Events and runs *)

Inductive Event :=
| Initialize (capabilities : ClientCapabilities)
| DidChangeConfiguration (settings : option (option ExampleSettings))
| DidOpen (u : string) (v : Z) (text : string)
| DidChange (u : string) (v : Z) (text : string)
| DidClose (u : string)
| DidChangeWatchedFiles
| ConfigurationResponse (id : nat) (r : Reply).

Definition step (st : Server) (e : Event) : Server :=
  match e with
  | Initialize capabilities => onInitialize capabilities st
  | DidChangeConfiguration settings => onDidChangeConfiguration settings st
  | DidOpen u v text => didOpen u v text st
  | DidChange u v text => didChange u v text st
  | DidClose u => didClose u st
  | DidChangeWatchedFiles => st
  | ConfigurationResponse id r => settle id r st
  end.

(** An event reaches its handler only while the process lives. *)
Definition deliver (st : Server) (e : Event) : Server :=
  if exited st then st else step st e.

Definition run (events : list Event) (st : Server) : Server :=
  foldl deliver st events.

Definition reachable (st : Server) : Prop :=
  ∃ events, st = run events initial.

End Session.

(** ** Consistency of a session state

    What every state reached from [Session.initial] satisfies: the synced
    documents are live objects filed under their own URI, settings are
    cached only for synced documents, and requests are numbered in the
    order they were issued. *)

Module Invariant.
Import Session.

Record consistent (st : Server) : Prop := mk_consistent {
  synced_live : ∀ k d, (k, d) ∈ documents st →
    ∃ td, heap st !! d = Some td ∧ uri td = k;
  cached_synced : ∀ k, is_Some (documentSettings st !! k) →
    is_Some (synced_get k (documents st));
  cached_issued : ∀ k i, documentSettings st !! k = Some (GetConfiguration i) →
    (i < length (requests st))%nat;
  awaiting_pending : ∀ i d, (i, d) ∈ awaiting st →
    (i < length (requests st))%nat ∧ replies st !! i = None
    ∧ is_Some (heap st !! d);
  replies_issued : ∀ i, is_Some (replies st !! i) →
    (i < length (requests st))%nat
}.

(** The publish of one validation pass for [u]. *)
Definition publish (u : string) (ds : list Diagnostic) : PublishDiagnosticsParams :=
  {| publish_uri := u; diagnostics := ds |}.

(** The configuration request for [u]. *)
Definition request (u : string) : ConfigurationItem :=
  {| scopeUri := u; section := "languageServerExample" |}.

(** The publishes of the suspended calls [l] when they resume, each for
    the URI of its own document object in [h]. *)
Definition published_for (h : list TextDocument) (l : list (nat * nat))
  : list PublishDiagnosticsParams :=
  omap (λ p : nat * nat, (λ td, publish (uri td) []) <$> h !! p.2) l.

End Invariant.

(** ** The scan as the specification describes it

    The specification has the validation pass scan the text for a pattern
    and stop at the settings' [maxNumberOfProblems]. The definitions here
    follow those words, with the pattern, severity and message of the loop
    the source keeps inside its block comment; they are what
    [Session.computeDiagnostics] is compared against. *)

Module Specified.

Definition is_upper (c : ascii) : bool :=
  let n := nat_of_ascii c in (65 <=? n)%nat && (n <=? 90)%nat.

(** A word character of the pattern language: a letter, a digit or [_]. *)
Definition is_word (c : ascii) : bool :=
  let n := nat_of_ascii c in
  is_upper c
  || ((97 <=? n)%nat && (n <=? 122)%nat)
  || ((48 <=? n)%nat && (n <=? 57)%nat)
  || (n =? 95)%nat.

Fixpoint upper_run (l : list ascii) : list ascii :=
  match l with
  | c :: l' => if is_upper c then c :: upper_run l' else []
  | [] => []
  end.

(** A match of [[A-Z]{2,}\b] at the head of [l]: the longest run of
    capitals, two at least, not followed by a word character. A shorter
    run ends between two capitals, where there is no word boundary. *)
Definition match_at (l : list ascii) : option (list ascii) :=
  let u := upper_run l in
  if (2 <=? length u)%nat
     && negb (match drop (length u) l with c :: _ => is_word c | [] => false end)
  then Some u else None.

(** All matches of [/\b[A-Z]{2,}\b/g] in [l], whose first character has
    index [i] and follows a word character iff [after_word]. A match can
    only start where the previous character is not a word character, so
    none starts inside an earlier one. *)
Fixpoint exec_all (after_word : bool) (i : nat) (l : list ascii)
  : list (nat * string) :=
  match l with
  | [] => []
  | c :: l' =>
      match (if after_word then None else match_at l) with
      | Some u => [(i, string_of_list_ascii u)]
      | None => []
      end ++ exec_all (is_word c) (S i) l'
  end.

Definition matches (text : string) : list (nat * string) :=
  exec_all false 0 (list_ascii_of_string text).

(** Severity and message of the diagnostics of the bounded scan: one per
    match, in order, no more than [maxNumberOfProblems] of them. *)
Definition spec_scan (text : string) (maxNumberOfProblems : Z)
  : list (Z * string) :=
  take (Z.to_nat maxNumberOfProblems)
    (map (λ m, (Session.DiagnosticSeverity_Warning, m.2 +:+ " is all uppercase."))
       (matches text)).

End Specified.

(** ** Classification of catalog items by category tag *)

Module Catalog.
Import Completion.

(** A type or variable keyword: tags 1 (integers), 2 (floating point),
    3 ([var]) and 4 (strings). *)
Definition is_variable (item : CompletionItem) : bool :=
  match tag item with
  | Some n => (1 <=? n) && (n <=? 4)
  | None => false
  end.

(** A control or function keyword: tag 6. *)
Definition is_function (item : CompletionItem) : bool :=
  match tag item with
  | Some n => n =? 6
  | None => false
  end.

(** The tags [onCompletionResolve] has a branch for. *)
Definition mapped (d : option LSPAny) : bool :=
  match d with
  | Some (LSPnumber n) => (1 <=? n) && (n <=? 6)
  | _ => false
  end.

End Catalog.

(** ** The answer to the initialize request and the registrations *)

Module Negotiation.
Import Session.

(** [TextDocumentSyncKind.Incremental] *)
Definition TextDocumentSyncKind_Incremental : Z := 2.

Record CompletionOptions := mkCompletionOptions {
  resolveProvider : option bool
}.

Record WorkspaceFoldersServerCapabilities := mkWorkspaceFolders {
  supported : option bool
}.

(** The [capabilities] of the [InitializeResult]; [server_workspaceFolders]
    is [capabilities.workspace.workspaceFolders], absent with its parent. *)
Record ServerCapabilities := mkServerCaps {
  textDocumentSync : option Z;
  completionProvider : option CompletionOptions;
  server_workspaceFolders : option WorkspaceFoldersServerCapabilities
}.

(** What [connection.onInitialize] returns: the literal, extended by the
    workspace entry when the flag assigned just before is set. *)
Definition initializeResult (capabilities : ClientCapabilities) (st : Server)
  : ServerCapabilities :=
  let st' := onInitialize capabilities st in
  let result :=
    {| textDocumentSync := Some TextDocumentSyncKind_Incremental;
       completionProvider := Some {| resolveProvider := Some true |};
       server_workspaceFolders := None |} in
  if hasWorkspaceFolderCapability st' then
    {| textDocumentSync := textDocumentSync result;
       completionProvider := completionProvider result;
       server_workspaceFolders := Some {| supported := Some true |} |}
  else result.

(** What [connection.onInitialized] sets up. *)
Inductive Registration :=
| RegisterDidChangeConfiguration
| OnDidChangeWorkspaceFolders.

#[global] Instance Registration_eq_dec : EqDecision Registration.
Proof. solve_decision. Defined.

Definition onInitialized (st : Server) : list Registration :=
  (if hasConfigurationCapability st then [RegisterDidChangeConfiguration] else [])
  ++ (if hasWorkspaceFolderCapability st then [OnDidChangeWorkspaceFolders] else []).

End Negotiation.

(** ** Further invariants of a session state

    The synced URIs are pairwise distinct; a cached thenable is always the
    promise of a request issued for the very URI it is filed under; every
    publish sent so far carries the empty sequence, for the URI of a
    document object the manager created. *)

Module Coherence.
Import Session Invariant.

Record coherent (st : Server) : Prop := mk_coherent {
  keys_distinct : NoDup (documents st).*1;
  cached_request : ∀ k t, documentSettings st !! k = Some t →
    ∃ i, t = GetConfiguration i ∧ requests st !! i = Some (request k);
  sent_empty :
    Forall (λ p, diagnostics p = []
                 ∧ ∃ td, td ∈ heap st ∧ uri td = publish_uri p)
      (sent st)
}.

(** An event that is not an initialize request declaring the
    configuration capability. *)
Definition without_configuration (e : Event) : bool :=
  match e with
  | Initialize capabilities =>
      negb (hasConfigurationCapability (onInitialize capabilities initial))
  | _ => true
  end.

End Coherence.

(** * Properties of the completion handlers *)

Section CompletionFacts.
Import Completion Catalog.

Lemma strict_eq_true d n : strict_eq d n = true ↔ d = Some (LSPnumber n).
Proof. unfold strict_eq. apply bool_decide_eq_true. Qed.

Lemma strict_eq_number n m : strict_eq (Some (LSPnumber n)) m = bool_decide (n = m).
Proof.
  unfold strict_eq. apply bool_decide_ext. split; [congruence | intros ->; done].
Qed.

(** Outside the six branches every comparison of the chain fails. *)
Lemma unmapped_strict_eq d n :
  mapped d = false → 1 ≤ n ≤ 6 → strict_eq d n = false.
Proof.
  intros Hd Hn. apply not_true_is_false. rewrite strict_eq_true. intros ->.
  simpl in Hd. lia.
Qed.

(** What the handler returns is the item it was given, up to the two
    fields it assigns. *)
Lemma resolve_shape (item : CompletionItem) :
  onCompletionResolve item = item ∨
  ∃ d doc, onCompletionResolve item = assign item d doc.
Proof.
  unfold onCompletionResolve.
  repeat (case_match; [right; eauto |]). by left.
Qed.

(** C3: for an item whose tag is one of 1..6 the handler finds the
    [CompletionDetail] entry of that tag and returns the item with its
    detail and documentation set to the entry's two texts, the other fields
    as they were. *)
Theorem resolve_mapped_tag (item : CompletionItem) (n : Z) :
  data item = Some (LSPnumber n) →
  1 ≤ n ≤ 6 →
  ∃ d doc,
    CompletionDetail n = Some (d, doc) ∧
    onCompletionResolve item =
      {| label := label item; kind := kind item; data := data item;
         detail := Some d; documentation := Some doc |}.
Proof.
  intros Hdata Hn. unfold onCompletionResolve. rewrite Hdata, !strict_eq_number.
  assert (n = 1 ∨ n = 2 ∨ n = 3 ∨ n = 4 ∨ n = 5 ∨ n = 6) as Hcases by lia.
  destruct Hcases as [-> | [-> | [-> | [-> | [-> | ->]]]]];
    simpl; do 2 eexists; (split; [reflexivity |]);
    unfold assign; by rewrite Hdata.
Qed.

Lemma resolve_mapped_tag_witness :
  ∃ d doc,
    CompletionDetail 4 = Some (d, doc) ∧
    onCompletionResolve (entry "StringView" 4) =
      {| label := "StringView"; kind := Some CompletionItemKind_Text;
         data := Some (LSPnumber 4);
         detail := Some d; documentation := Some doc |}.
Proof.
  apply (resolve_mapped_tag (entry "StringView" 4) 4); [reflexivity | lia].
Defined.

(** C8: an item whose [data] is not one of the numbers 1..6 (another
    number, a value of another type, or no [data] at all) comes back exactly
    as it was given; the handler has no failing path. *)
Theorem resolve_unmapped_tag (item : CompletionItem) :
  mapped (data item) = false →
  onCompletionResolve item = item.
Proof.
  intros Hd. unfold onCompletionResolve.
  by rewrite !(unmapped_strict_eq _ _ Hd) by lia.
Qed.

Lemma resolve_unmapped_tag_witness :
  mapped (Some (LSPnumber 7)) = false ∧
  onCompletionResolve (mkItem "match" (Some 14) (Some (LSPnumber 7)) (Some "kw") None)
  = mkItem "match" (Some 14) (Some (LSPnumber 7)) (Some "kw") None.
Proof.
  split; [reflexivity |].
  apply (resolve_unmapped_tag
           (mkItem "match" (Some 14) (Some (LSPnumber 7)) (Some "kw") None)).
  reflexivity.
Defined.

(** C10: whatever the item and its tag, the handler leaves [label], [kind]
    and [data] as they were; only [detail] and [documentation] are ever
    assigned. *)
Theorem resolve_frame (item : CompletionItem) :
  label (onCompletionResolve item) = label item ∧
  kind (onCompletionResolve item) = kind item ∧
  data (onCompletionResolve item) = data item.
Proof.
  destruct (resolve_shape item) as [-> | (d & doc & ->)]; done.
Qed.

(** The two cases of the handler, for use in later proofs. *)
Lemma resolve_on_mapped (item : CompletionItem) (n : Z) :
  data item = Some (LSPnumber n) → 1 ≤ n ≤ 6 →
  ∃ d doc, CompletionDetail n = Some (d, doc) ∧
           onCompletionResolve item = assign item d doc.
Proof.
  intros Hdata Hn. unfold onCompletionResolve. rewrite Hdata, !strict_eq_number.
  assert (n = 1 ∨ n = 2 ∨ n = 3 ∨ n = 4 ∨ n = 5 ∨ n = 6) as Hcases by lia.
  destruct Hcases as [-> | [-> | [-> | [-> | [-> | ->]]]]];
    simpl; do 2 eexists; (split; reflexivity).
Qed.

Lemma resolve_on_unmapped (item : CompletionItem) :
  mapped (data item) = false → onCompletionResolve item = item.
Proof.
  intros Hd. unfold onCompletionResolve.
  by rewrite !(unmapped_strict_eq _ _ Hd) by lia.
Qed.

(** C7, as stated, fails: two items with the same tag 7, for which the
    handler has no branch, keep the different details they came with. *)
Lemma resolve_same_tag_counterexample :
  let a := mkItem "x" (Some CompletionItemKind_Text) (Some (LSPnumber 7))
             (Some "first") None in
  let b := mkItem "x" (Some CompletionItemKind_Text) (Some (LSPnumber 7))
             (Some "second") None in
  data a = data b ∧
  detail (onCompletionResolve a) ≠ detail (onCompletionResolve b).
Proof. split; [reflexivity | discriminate]. Qed.

(** C7, amended: two items with the same tag resolve to the same detail
    and documentation when the tag is one of 1..6, and also when the two
    items agreed on these fields beforehand, as catalog items (which have
    neither) do. *)
Theorem resolve_same_tag (a b : CompletionItem) :
  data a = data b →
  mapped (data a) = true
  ∨ (detail a = detail b ∧ documentation a = documentation b) →
  detail (onCompletionResolve a) = detail (onCompletionResolve b) ∧
  documentation (onCompletionResolve a) = documentation (onCompletionResolve b).
Proof.
  intros Hab Hor. destruct (mapped (data a)) eqn:Hm.
  - unfold mapped in Hm. destruct (data a) as [[| |n|]|] eqn:Ha; try discriminate.
    destruct (resolve_on_mapped a n Ha) as (d & doc & Hd & ->); [lia |].
    destruct (resolve_on_mapped b n) as (d' & doc' & Hd' & ->);
      [congruence | lia |].
    rewrite Hd in Hd'. by simplify_eq.
  - destruct Hor as [? | [? ?]]; [done |].
    rewrite !resolve_on_unmapped; [done | by rewrite <- Hab | done].
Qed.

Lemma resolve_same_tag_witness :
  detail (onCompletionResolve (entry "i8" 1))
  = detail (onCompletionResolve
              (mkItem "u256" None (Some (LSPnumber 1)) (Some "stale") None)) ∧
  documentation (onCompletionResolve (entry "i8" 1))
  = documentation (onCompletionResolve
              (mkItem "u256" None (Some (LSPnumber 1)) (Some "stale") None)).
Proof.
  apply (resolve_same_tag (entry "i8" 1)
           (mkItem "u256" None (Some (LSPnumber 1)) (Some "stale") None));
    [reflexivity | left; reflexivity].
Defined.

(** In a sequence that splits into variable items followed by function
    items, every variable item stands before every function item. *)
Lemma split_order (vars funs : list CompletionItem) i j x y :
  Forall (λ v, is_variable v = true) vars →
  Forall (λ f, is_function f = true) funs →
  (vars ++ funs) !! i = Some x → (vars ++ funs) !! j = Some y →
  is_variable x = true → is_function y = true →
  (i < j)%nat.
Proof.
  intros Hv Hf Hi Hj Hx Hy.
  assert (∀ z, is_variable z = true → is_function z = true → False) as Hdisj.
  { intros z. unfold is_variable, is_function. destruct (tag z); [lia | done]. }
  rewrite Forall_lookup in Hv. rewrite Forall_lookup in Hf.
  apply lookup_app_Some in Hi as [Hi | [Hi1 Hi2]];
    [| exfalso; eapply Hdisj; [done | by eapply Hf]].
  apply lookup_app_Some in Hj as [Hj | [Hj1 Hj2]];
    [exfalso; eapply Hdisj; [by eapply Hv | done] |].
  apply lookup_lt_Some in Hi. lia.
Qed.

Lemma VARIABLES_tags : Forall (λ v, is_variable v = true) VARIABLES.
Proof. unfold VARIABLES. repeat (constructor; [reflexivity |]). constructor. Qed.

Lemma FUNCTIONS_tags : Forall (λ f, is_function f = true) FUNCTIONS.
Proof. unfold FUNCTIONS. repeat (constructor; [reflexivity |]). constructor. Qed.

(** C6: the list handler ignores its argument, so two calls for any two
    URIs and positions return equal sequences; the sequence is the fixed
    catalog, twenty type and variable keywords (tags 1..4) followed by ten
    control and function keywords (tag 6), none of the first kind after one
    of the second. *)
Theorem list_is_static_catalog (p q : TextDocumentPositionParams) :
  onCompletion p = onCompletion q ∧
  onCompletion p = VARIABLES ++ FUNCTIONS ∧
  Forall (λ v, is_variable v = true) VARIABLES ∧
  Forall (λ f, is_function f = true) FUNCTIONS ∧
  length VARIABLES = 20%nat ∧ length FUNCTIONS = 10%nat ∧
  map label (onCompletion p) =
    [ "var"; "f16"; "f32"; "f64"; "f128"; "BFloat16"; "String"; "StringView";
      "i8"; "i16"; "i32"; "i64"; "i128"; "i256";
      "u8"; "u16"; "u32"; "u64"; "u128"; "u256";
      "if"; "while"; "then"; "else"; "Carbon"; "Swap"; "Size"; "fn"; "Slice";
      "in" ].
Proof.
  repeat split; try reflexivity.
  - apply VARIABLES_tags.
  - apply FUNCTIONS_tags.
Qed.

(** The order by index that follows from C6's split. *)
Lemma catalog_order (p : TextDocumentPositionParams) i j x y :
  onCompletion p !! i = Some x → onCompletion p !! j = Some y →
  is_variable x = true → is_function y = true → (i < j)%nat.
Proof.
  unfold onCompletion. apply split_order.
  - apply VARIABLES_tags.
  - apply FUNCTIONS_tags.
Qed.

(** Tag 5 has a branch in the resolve handler but no catalog item. *)
Lemma tag_five_unreferenced (p : TextDocumentPositionParams) :
  Forall (λ item, tag item ≠ Some 5) (onCompletion p).
Proof.
  unfold onCompletion, VARIABLES, FUNCTIONS. simpl.
  repeat (constructor; [discriminate |]). constructor.
Qed.

End CompletionFacts.

(** * Properties of the session *)

Section SessionFacts.
Import Session Invariant.

(** ** The manager's map *)

Lemma synced_get_Some k d m : synced_get k m = Some d → (k, d) ∈ m.
Proof.
  induction m as [|[k' v] m IH]; simpl; [done |].
  case_decide; intros Hget.
  - simplify_eq. left.
  - right. auto.
Qed.

Lemma elem_synced_get k d m : (k, d) ∈ m → is_Some (synced_get k m).
Proof.
  induction m as [|[k' v] m IH]; simpl.
  - by intros ?%elem_of_nil.
  - intros [?|?]%elem_of_cons; case_decide; simplify_eq; eauto.
Qed.

Lemma elem_of_synced_set p k v m : p ∈ synced_set k v m → p = (k, v) ∨ p ∈ m.
Proof.
  induction m as [|[k' v'] m IH]; simpl.
  - intros ?%list_elem_of_singleton. by left.
  - case_decide.
    + intros [->|?]%elem_of_cons; [by left | right; by right].
    + intros [->|?]%elem_of_cons; [right; left |].
      destruct IH as [?|?]; [done | by left | right; by right].
Qed.

Lemma synced_set_elem k v m : (k, v) ∈ synced_set k v m.
Proof.
  induction m as [|[k' v'] m IH]; simpl.
  - left.
  - case_decide; [left | by right].
Qed.

Lemma synced_get_set k' k v m :
  is_Some (synced_get k' m) → is_Some (synced_get k' (synced_set k v m)).
Proof.
  induction m as [|[k1 v1] m IH]; simpl.
  - by intros [? ?].
  - intros Hs. repeat (case_decide; simpl); simplify_eq; eauto.
    all: repeat (case_decide; simpl); simplify_eq; eauto.
Qed.

Lemma synced_get_delete k' k m :
  k' ≠ k → is_Some (synced_get k' m) → is_Some (synced_get k' (synced_delete k m)).
Proof.
  intros Hne. unfold synced_delete.
  induction m as [|[k1 v1] m IH]; simpl; [done |].
  intros Hs. rewrite filter_cons. simpl.
  repeat (case_decide; simpl); simplify_eq; eauto.
Qed.

Lemma elem_of_synced_delete p k m : p ∈ synced_delete k m → p ∈ m.
Proof. unfold synced_delete. by intros [_ ?]%list_elem_of_filter. Qed.

Lemma synced_get_deleted k m : synced_get k (synced_delete k m) = None.
Proof.
  unfold synced_delete. induction m as [|[k1 v1] m IH]; simpl; [done |].
  rewrite filter_cons. simpl. repeat (case_decide; simpl); simplify_eq; eauto.
Qed.

(** ** What the handlers leave alone *)

Lemma resume_fields doc v st :
  heap (resume doc v st) = heap st ∧
  documents (resume doc v st) = documents st ∧
  documentSettings (resume doc v st) = documentSettings st ∧
  requests (resume doc v st) = requests st ∧
  replies (resume doc v st) = replies st ∧
  awaiting (resume doc v st) = awaiting st ∧
  hasConfigurationCapability (resume doc v st) = hasConfigurationCapability st.
Proof. unfold resume. by destruct (heap st !! doc). Qed.

Lemma resume_sent doc td v st :
  heap st !! doc = Some td →
  sent (resume doc v st) = sent st ++ [publish (uri td) []].
Proof. unfold resume. by intros ->. Qed.

Lemma resume_consistent doc v st : consistent st → consistent (resume doc v st).
Proof.
  intros [H1 H2 H3 H4 H5]. unfold resume.
  destruct (heap st !! doc); by constructor.
Qed.

Lemma exit_consistent st : consistent st → consistent (exit st).
Proof. intros [H1 H2 H3 H4 H5]. by constructor. Qed.

Lemma getDocumentSettings_fields u st :
  heap (getDocumentSettings u st).2 = heap st ∧
  documents (getDocumentSettings u st).2 = documents st ∧
  replies (getDocumentSettings u st).2 = replies st ∧
  awaiting (getDocumentSettings u st).2 = awaiting st ∧
  sent (getDocumentSettings u st).2 = sent st ∧
  hasConfigurationCapability (getDocumentSettings u st).2
  = hasConfigurationCapability st.
Proof.
  unfold getDocumentSettings.
  destruct (hasConfigurationCapability st) eqn:Hc; simpl; [| done].
  by destruct (documentSettings st !! u).
Qed.

Lemma validateTextDocument_fields doc st :
  heap (validateTextDocument doc st) = heap st ∧
  documents (validateTextDocument doc st) = documents st ∧
  replies (validateTextDocument doc st) = replies st ∧
  hasConfigurationCapability (validateTextDocument doc st)
  = hasConfigurationCapability st.
Proof.
  unfold validateTextDocument. destruct (heap st !! doc) as [td|]; [| done].
  pose proof (getDocumentSettings_fields (uri td) st) as (? & ? & ? & ? & ? & ?).
  destruct (getDocumentSettings (uri td) st) as [result st1]; simpl in *.
  destruct result as [s|id].
  - destruct (resume_fields doc (Some s) st1) as (-> & -> & _ & _ & -> & _ & ->).
    done.
  - destruct (replies st1 !! id) as [[v|]|]; [| done..].
    destruct (resume_fields doc v st1) as (-> & -> & _ & _ & -> & _ & ->).
    done.
Qed.

(** ** Consistency is kept by every handler *)

Lemma getDocumentSettings_consistent k doc st :
  consistent st → (k, doc) ∈ documents st →
  consistent (getDocumentSettings k st).2 ∧
  ∀ i, (getDocumentSettings k st).1 = GetConfiguration i →
       (i < length (requests (getDocumentSettings k st).2))%nat.
Proof.
  intros [H1 H2 H3 H4 H5] Hin. unfold getDocumentSettings.
  destruct (hasConfigurationCapability st) eqn:Hc; simpl.
  - destruct (documentSettings st !! k) as [result|] eqn:Hl; simpl.
    + split; [by constructor | intros i ->; eauto].
    + split.
      * constructor; simpl; try done.
        -- intros k' [x Hx]. destruct (decide (k = k')) as [<-|Hne].
           ++ by eapply elem_synced_get.
           ++ apply H2. rewrite lookup_insert_ne in Hx; eauto.
        -- intros k' i Hi. rewrite length_app. simpl.
           destruct (decide (k = k')) as [<-|Hne].
           ++ rewrite lookup_insert_eq in Hi. simplify_eq. lia.
           ++ rewrite lookup_insert_ne in Hi by done. apply H3 in Hi. lia.
        -- intros i d Hid. rewrite length_app. simpl.
           destruct (H4 _ _ Hid) as (? & ? & ?). repeat split; [lia | done..].
        -- intros i Hi. rewrite length_app. simpl. apply H5 in Hi. lia.
      * intros i Hi. simplify_eq. rewrite length_app. simpl. lia.
  - split; [by constructor | done].
Qed.

Lemma validateTextDocument_consistent k doc st :
  consistent st → (k, doc) ∈ documents st →
  consistent (validateTextDocument doc st).
Proof.
  intros Hst Hin. destruct (synced_live _ Hst _ _ Hin) as (td & Htd & <-).
  unfold validateTextDocument. rewrite Htd.
  destruct (getDocumentSettings_consistent _ _ _ Hst Hin) as [Hst1 Hid].
  pose proof (getDocumentSettings_fields (uri td) st) as (Hh & _).
  destruct (getDocumentSettings (uri td) st) as [result st1]; simpl in *.
  destruct result as [s|id]; [by apply resume_consistent |].
  destruct (replies st1 !! id) as [[v|]|] eqn:Hr;
    [by apply resume_consistent | by apply exit_consistent |].
  destruct Hst1 as [H1 H2 H3 H4 H5]. constructor; simpl; try done.
  intros i d [Hold | [= -> ->]%list_elem_of_singleton]%elem_of_app; [eauto |].
  repeat split; [eauto | done |]. rewrite Hh. eauto.
Qed.

Lemma revalidate_consistent st : consistent st → consistent (revalidate st).
Proof.
  unfold revalidate.
  assert (∀ l s, consistent s → l ⊆ documents s →
            consistent (foldl (λ s p, validateTextDocument p.2 s) s l)) as Hgen.
  { induction l as [|[k d] l IH]; simpl; [done |]. intros s Hs Hl.
    apply IH.
    - eapply validateTextDocument_consistent; [done |]. apply Hl. left.
    - pose proof (validateTextDocument_fields d s) as (_ & -> & _).
      intros p Hp. apply Hl. by right. }
  intros Hst. by apply Hgen.
Qed.

Lemma onDidChangeConfiguration_consistent settings st :
  consistent st → consistent (onDidChangeConfiguration settings st).
Proof.
  intros [H1 H2 H3 H4 H5]. unfold onDidChangeConfiguration.
  destruct (hasConfigurationCapability st).
  - apply revalidate_consistent. constructor; simpl; try done.
    intros k [x Hx]. by rewrite lookup_empty in Hx.
  - destruct settings as [languageServerExample|]; [| by constructor].
    apply revalidate_consistent. by constructor.
Qed.

(** The manager's part of an open: the new object is filed under its URI. *)
Lemma opened_consistent u v text st :
  consistent st →
  consistent
    (with_documents (heap st ++ [mkTextDocument u v text])
       (synced_set u (length (heap st)) (documents st)) st).
Proof.
  intros [H1 H2 H3 H4 H5]. constructor; simpl; try done.
  - intros k d [[= -> ->] | Hold]%elem_of_synced_set.
    + exists (mkTextDocument u v text). split; [| done].
      rewrite lookup_app_r by done. by rewrite Nat.sub_diag.
    + destruct (H1 _ _ Hold) as (td & Htd & Hk). exists td. split; [| done].
      by apply lookup_app_l_Some.
  - intros k Hk. by apply synced_get_set, H2.
  - intros i d Hid. destruct (H4 _ _ Hid) as (? & ? & [td Htd]).
    repeat split; [done.. |]. exists td. by apply lookup_app_l_Some.
Qed.

Lemma didOpen_consistent u v text st :
  consistent st → consistent (didOpen u v text st).
Proof.
  intros Hst. unfold didOpen, onDidChangeContent.
  eapply (validateTextDocument_consistent u); [| apply synced_set_elem].
  by apply opened_consistent.
Qed.

Lemma didChange_consistent u v text st :
  consistent st → consistent (didChange u v text st).
Proof.
  intros Hst. unfold didChange, onDidChangeContent.
  destruct (synced_get u (documents st)) as [doc|] eqn:Hget; [| done].
  apply synced_get_Some in Hget.
  destruct (synced_live _ Hst _ _ Hget) as (td0 & Htd0 & Hu0).
  eapply (validateTextDocument_consistent u); [| done].
  destruct Hst as [H1 H2 H3 H4 H5]. constructor; simpl; try done.
  - intros k d Hkd. destruct (H1 _ _ Hkd) as (td & Htd & Hk).
    destruct (decide (d = doc)) as [-> | Hne].
    + exists (mkTextDocument u v text). split.
      * apply list_lookup_insert_eq. by eapply lookup_lt_Some.
      * simpl. congruence.
    + exists td. split; [| done]. by rewrite list_lookup_insert_ne.
  - intros i d Hid. destruct (H4 _ _ Hid) as (? & ? & Hd).
    repeat split; [done.. |].
    apply lookup_lt_is_Some. rewrite length_insert.
    by apply lookup_lt_is_Some.
Qed.

Lemma didClose_consistent u st : consistent st → consistent (didClose u st).
Proof.
  intros [H1 H2 H3 H4 H5]. unfold didClose, onDidClose.
  destruct (synced_get u (documents st)) as [doc|]; [| by constructor].
  constructor; simpl; try done.
  - intros k d Hkd%elem_of_synced_delete. eauto.
  - intros k [x Hx]. destruct (decide (u = k)) as [<- | Hne].
    + by rewrite lookup_delete_eq in Hx.
    + rewrite lookup_delete_ne in Hx by done.
      apply synced_get_delete; [done | eauto].
  - intros k i Hx. destruct (decide (u = k)) as [<- | Hne].
    + by rewrite lookup_delete_eq in Hx.
    + rewrite lookup_delete_ne in Hx by done. eauto.
Qed.

Lemma foldl_resume_consistent v l st :
  consistent st → consistent (foldl (λ s (p : nat * nat), resume p.2 v s) st l).
Proof.
  revert st. induction l as [|p l IH]; simpl; [done |].
  intros st Hst. by apply IH, resume_consistent.
Qed.

Lemma settle_consistent id r st : consistent st → consistent (settle id r st).
Proof.
  intros [H1 H2 H3 H4 H5]. unfold settle.
  destruct (bool_decide (id < length (requests st))%nat) eqn:Hlt;
    [| by constructor].
  destruct (bool_decide (replies st !! id = None)) eqn:Hnone;
    [| by constructor].
  apply bool_decide_eq_true in Hlt. simpl.
  assert (consistent
            (with_replies (<[id:=r]> (replies st))
               (with_awaiting (filter (λ p, p.1 ≠ id) (awaiting st)) st)))
    as Hst1.
  { constructor; simpl; try done.
    - intros i d [Hne Hin]%list_elem_of_filter. simpl in Hne.
      destruct (H4 _ _ Hin) as (? & ? & ?).
      repeat split; [done | by rewrite lookup_insert_ne | done].
    - intros i [x Hx]. destruct (decide (id = i)) as [<- | Hne]; [done |].
      rewrite lookup_insert_ne in Hx by done. eauto. }
  destruct r as [v|];
    [by apply foldl_resume_consistent | by apply exit_consistent].
Qed.

Lemma initial_consistent : consistent initial.
Proof.
  constructor; simpl.
  - by intros k d ?%elem_of_nil.
  - intros k [x Hx]. by rewrite lookup_empty in Hx.
  - intros k i Hx. by rewrite lookup_empty in Hx.
  - by intros i d ?%elem_of_nil.
  - intros i [x Hx]. by rewrite lookup_empty in Hx.
Qed.

Lemma step_consistent st e : consistent st → consistent (step st e).
Proof.
  intros Hst. destruct e; simpl.
  - destruct Hst. by constructor.
  - by apply onDidChangeConfiguration_consistent.
  - by apply didOpen_consistent.
  - by apply didChange_consistent.
  - by apply didClose_consistent.
  - done.
  - by apply settle_consistent.
Qed.

Lemma deliver_consistent st e : consistent st → consistent (deliver st e).
Proof.
  intros Hst. unfold deliver. destruct (exited st); [done |].
  by apply step_consistent.
Qed.

Lemma run_consistent events st : consistent st → consistent (run events st).
Proof.
  revert st. unfold run. induction events as [|e events IH]; simpl; [done |].
  intros st Hst. by apply IH, deliver_consistent.
Qed.

Lemma reachable_consistent st : reachable st → consistent st.
Proof. intros [events ->]. apply run_consistent, initial_consistent. Qed.

(** ** Suspended calls and their publishes *)

Lemma foldl_resume_sent v l st :
  sent (foldl (λ s (p : nat * nat), resume p.2 v s) st l)
  = sent st ++ published_for (heap st) l.
Proof.
  revert st. induction l as [|p l IH]; simpl; intros st.
  - by rewrite app_nil_r.
  - rewrite IH. destruct (resume_fields p.2 v st) as (-> & _).
    unfold published_for. simpl. unfold resume.
    destruct (heap st !! p.2) as [td|]; simpl; [| done].
    by rewrite <- app_assoc.
Qed.

Lemma settle_rejected_sent id st : sent (settle id Rejected st) = sent st.
Proof. unfold settle. by case_match. Qed.

Lemma settle_fulfilled_sent id v st :
  (id < length (requests st))%nat → replies st !! id = None →
  sent (settle id (Fulfilled v) st)
  = sent st ++ published_for (heap st) (filter (λ p, p.1 = id) (awaiting st)).
Proof.
  intros Hlt Hnone. unfold settle.
  rewrite !bool_decide_eq_true_2 by done. simpl.
  by rewrite foldl_resume_sent.
Qed.

Lemma settle_not_issued id r st :
  ¬ (id < length (requests st))%nat → settle id r st = st.
Proof. intros Hge. unfold settle. by rewrite bool_decide_eq_false_2. Qed.

(** No call waits for a request that has not been issued yet. *)
Lemma awaiting_fresh st :
  consistent st →
  filter (λ p : nat * nat, p.1 = length (requests st)) (awaiting st) = [] ∧
  filter (λ p : nat * nat, p.1 ≠ length (requests st)) (awaiting st) = awaiting st.
Proof.
  intros Hst.
  assert (Forall (λ p : nat * nat, p.1 ≠ length (requests st)) (awaiting st))
    as Hall.
  { apply Forall_forall. intros [i d] Hin.
    destruct (awaiting_pending _ Hst _ _ Hin) as (? & _). simpl. lia. }
  split.
  - induction Hall as [|p l Hp Hl IH]; [done |].
    rewrite filter_cons. by case_decide.
  - induction Hall as [|p l Hp Hl IH]; [done |].
    rewrite filter_cons. case_decide; [by f_equal | done].
Qed.

(** ** The settings cache *)

(** C4: without the configuration capability a lookup returns the
    fulfilled global record and touches nothing; with it, a hit returns the
    cached thenable and touches nothing (no request), and a miss issues
    exactly one request, for that URI, and stores the returned thenable
    under the URI, leaving every other field of the session as it was. *)
Theorem getDocumentSettings_cache (u : string) (st : Server) :
  (hasConfigurationCapability st = false →
     getDocumentSettings u st = (PromiseResolve (globalSettings st), st)) ∧
  (hasConfigurationCapability st = true →
     ∀ cached, documentSettings st !! u = Some cached →
     getDocumentSettings u st = (cached, st)) ∧
  (hasConfigurationCapability st = true →
     documentSettings st !! u = None →
     ∃ st',
       getDocumentSettings u st = (GetConfiguration (length (requests st)), st') ∧
       requests st' = requests st ++ [request u] ∧
       documentSettings st'
       = <[u := GetConfiguration (length (requests st))]> (documentSettings st) ∧
       replies st' = replies st ∧ awaiting st' = awaiting st ∧
       sent st' = sent st ∧ heap st' = heap st ∧ documents st' = documents st ∧
       globalSettings st' = globalSettings st).
Proof.
  unfold getDocumentSettings. repeat split.
  - by intros ->.
  - by intros -> cached ->.
  - intros -> ->. simpl. eexists. by repeat split.
Qed.

Lemma getDocumentSettings_cache_witness :
  let st0 := run [Initialize (mkClientCaps None None)] initial in
  let st1 :=
    run [Initialize (mkClientCaps (Some (mkWorkspaceCaps (Some true) None)) None)]
      initial in
  let st2 := (getDocumentSettings "file:///a.carbon" st1).2 in
  getDocumentSettings "file:///a.carbon" st0 = (PromiseResolve defaultSettings, st0) ∧
  (∃ st',
     getDocumentSettings "file:///a.carbon" st1 = (GetConfiguration 0, st') ∧
     requests st' = [request "file:///a.carbon"]) ∧
  getDocumentSettings "file:///a.carbon" st2 = (GetConfiguration 0, st2).
Proof.
  intros st0 st1 st2. split; [| split].
  - destruct (getDocumentSettings_cache "file:///a.carbon" st0) as (Hglobal & _).
    exact (Hglobal eq_refl).
  - destruct (getDocumentSettings_cache "file:///a.carbon" st1) as (_ & _ & Hmiss).
    destruct (Hmiss eq_refl eq_refl) as (st' & Hget & Hreq & _).
    exists st'. split; [exact Hget | exact Hreq].
  - destruct (getDocumentSettings_cache "file:///a.carbon" st2) as (_ & Hhit & _).
    apply (Hhit eq_refl). vm_compute. reflexivity.
Defined.

(** C9: in every reachable state, closing a document leaves no settings
    entry for its URI; settings stay cached for synced documents only, so a
    closed URI is in the same position as one never opened; and the next
    lookup for it, when configuration is supported, is a miss that issues a
    fresh request. *)
Theorem close_forgets_settings (u : string) (st : Server) :
  reachable st →
  let st' := step st (DidClose u) in
  documentSettings st' !! u = None ∧
  synced_get u (documents st') = None ∧
  (∀ k, synced_get k (documents st') = None → documentSettings st' !! k = None) ∧
  (hasConfigurationCapability st' = true →
     (getDocumentSettings u st').1 = GetConfiguration (length (requests st')) ∧
     requests (getDocumentSettings u st').2 = requests st' ++ [request u]).
Proof.
  intros Hst%reachable_consistent. simpl.
  pose proof (didClose_consistent u st Hst) as Hst'.
  assert (synced_get u (documents (didClose u st)) = None) as Hgone.
  { unfold didClose. destruct (synced_get u (documents st)) eqn:Hget; [| done].
    simpl. apply synced_get_deleted. }
  assert (∀ k, synced_get k (documents (didClose u st)) = None →
               documentSettings (didClose u st) !! k = None) as Hcache.
  { intros k Hk. apply eq_None_not_Some. intros Hs.
    apply (cached_synced _ Hst') in Hs. rewrite Hk in Hs. by destruct Hs. }
  split; [by apply Hcache |]. split; [done |]. split; [done |].
  intros Hcap. unfold getDocumentSettings.
  by rewrite Hcap, (Hcache u Hgone).
Qed.

Lemma close_forgets_settings_witness :
  let st :=
    run [Initialize (mkClientCaps (Some (mkWorkspaceCaps (Some true) None)) None);
         DidOpen "file:///a.carbon" 1 "hello"] initial in
  documentSettings st !! "file:///a.carbon" = Some (GetConfiguration 0) ∧
  documentSettings (step st (DidClose "file:///a.carbon")) !! "file:///a.carbon"
  = None.
Proof.
  intros st. split; [vm_compute; reflexivity |].
  assert (reachable st) as Hreach.
  { exists [Initialize (mkClientCaps (Some (mkWorkspaceCaps (Some true) None)) None);
            DidOpen "file:///a.carbon" 1 "hello"].
    reflexivity. }
  destruct (close_forgets_settings "file:///a.carbon" st Hreach) as (Hnone & _).
  exact Hnone.
Defined.

(** ** The validation pass *)

(** C1: the pass does not perform the scan the claim describes and the
    source's own comment announces. A document with the text [HELLO WORLD]
    is opened in a fresh session, whose settings are the default record
    with a maximum of 1000: the bounded scan reports two warnings, one per
    uppercase word, while the pass computes the empty sequence and the
    session publishes exactly that. *)
Theorem validate_skips_the_scan :
  let doc := mkTextDocument "file:///a.carbon" 1 "HELLO WORLD" in
  Specified.spec_scan (getText doc) (maxNumberOfProblems defaultSettings)
  = [(DiagnosticSeverity_Warning, "HELLO is all uppercase.");
     (DiagnosticSeverity_Warning, "WORLD is all uppercase.")] ∧
  computeDiagnostics false doc (Some defaultSettings) = [] ∧
  sent (run [DidOpen "file:///a.carbon" 1 "HELLO WORLD"] initial)
  = [publish "file:///a.carbon" []].
Proof. repeat split; reflexivity. Qed.

(** C5, as stated, fails: once the client has rejected the configuration
    request of a document, a further validation pass for it sends nothing
    and leaves no suspended call behind that could send later. *)
Lemma validate_without_publish_counterexample :
  let st :=
    run [Initialize (mkClientCaps (Some (mkWorkspaceCaps (Some true) None)) None);
         DidOpen "file:///a.carbon" 1 "hello";
         ConfigurationResponse 0 Rejected] initial in
  heap st !! 0%nat = Some (mkTextDocument "file:///a.carbon" 1 "hello") ∧
  sent st = [] ∧
  sent (validateTextDocument 0 st) = [] ∧
  awaiting (validateTextDocument 0 st) = [].
Proof. vm_compute. done. Qed.

(** C5, amended: a validation pass whose settings are fulfilled sends
    exactly one publish for the document's URI, with the (empty) sequence
    it computed: at once when the thenable is already fulfilled, and, when
    it is pending, as the one publish the pass adds once the client
    fulfils the request. A pass whose configuration request is rejected
    sends nothing. *)
Theorem validate_publishes_once (doc : nat) (td : TextDocument) (st : Server) :
  consistent st →
  heap st !! doc = Some td →
  let st' := validateTextDocument doc st in
  match (getDocumentSettings (uri td) st).1 with
  | PromiseResolve _ =>
      sent st' = sent st ++ [publish (uri td) []] ∧ awaiting st' = awaiting st
  | GetConfiguration id =>
      match replies st !! id with
      | Some (Fulfilled _) =>
          sent st' = sent st ++ [publish (uri td) []] ∧ awaiting st' = awaiting st
      | Some Rejected =>
          sent st' = sent st ∧ awaiting st' = awaiting st
      | None =>
          sent st' = sent st ∧ awaiting st' = awaiting st ++ [(id, doc)] ∧
          sent (settle id Rejected st') = sent (settle id Rejected st) ∧
          ∀ v, sent (settle id (Fulfilled v) st')
               = sent (settle id (Fulfilled v) st) ++ [publish (uri td) []]
      end
  end.
Proof.
  intros Hst Htd. simpl.
  unfold validateTextDocument. rewrite Htd.
  pose proof (getDocumentSettings_fields (uri td) st) as (Hh & _ & Hr & Ha & Hs & _).
  assert (∀ i, (getDocumentSettings (uri td) st).1 = GetConfiguration i →
            (i < length (requests st))%nat
            ∧ requests (getDocumentSettings (uri td) st).2 = requests st
            ∨ i = length (requests st)
              ∧ requests (getDocumentSettings (uri td) st).2
                = requests st ++ [request (uri td)])
    as Hreq.
  { intros i. unfold getDocumentSettings.
    destruct (hasConfigurationCapability st); simpl; [| done].
    destruct (documentSettings st !! uri td) eqn:Hl; simpl.
    - intros ->. left. split; [| done]. by eapply cached_issued.
    - intros [= <-]. by right. }
  destruct (getDocumentSettings (uri td) st) as [result st1]; simpl in *.
  destruct result as [s|id].
  - rewrite (resume_sent doc td) by congruence.
    destruct (resume_fields doc (Some s) st1) as (_ & _ & _ & _ & _ & -> & _).
    split; congruence.
  - rewrite Hr. destruct (replies st !! id) as [[v|]|] eqn:Hid.
    + rewrite (resume_sent doc td) by congruence.
      destruct (resume_fields doc v st1) as (_ & _ & _ & _ & _ & -> & _).
      split; congruence.
    + done.
    + simpl. rewrite Ha, Hs. repeat split.
      * by rewrite !settle_rejected_sent.
      * intros v. destruct (Hreq id eq_refl) as [[Hlt Hsame] | [-> Hnew]].
        -- rewrite !settle_fulfilled_sent by (simpl; congruence). simpl.
           rewrite ?Hs, ?Hh, ?Ha, filter_app, filter_cons, filter_nil. simpl.
           rewrite decide_True by done.
           unfold published_for. rewrite omap_app. simpl. rewrite Htd. simpl.
           by rewrite app_assoc.
        -- rewrite (settle_not_issued _ _ st) by lia.
           rewrite settle_fulfilled_sent; simpl.
           ++ rewrite ?Hs, ?Hh, ?Ha, filter_app, filter_cons, filter_nil. simpl.
              rewrite decide_True by done.
              destruct (awaiting_fresh st Hst) as [-> _].
              unfold published_for. simpl. by rewrite Htd.
           ++ rewrite Hnew, length_app. simpl. lia.
           ++ congruence.
Qed.

Lemma validate_publishes_once_witness :
  let st :=
    run [Initialize (mkClientCaps (Some (mkWorkspaceCaps (Some true) None)) None);
         DidOpen "file:///a.carbon" 1 "hello"] initial in
  let st' := validateTextDocument 0 st in
  sent st' = sent st ∧
  sent (settle 0 (Fulfilled (Some defaultSettings)) st')
  = sent (settle 0 (Fulfilled (Some defaultSettings)) st)
      ++ [publish "file:///a.carbon" []].
Proof.
  intros st st'.
  assert (consistent st) as Hst.
  { apply reachable_consistent.
    exists [Initialize (mkClientCaps (Some (mkWorkspaceCaps (Some true) None)) None);
            DidOpen "file:///a.carbon" 1 "hello"].
    reflexivity. }
  assert (heap st !! 0%nat = Some (mkTextDocument "file:///a.carbon" 1 "hello"))
    as Htd by reflexivity.
  pose proof (validate_publishes_once 0 _ st Hst Htd) as Hpass.
  change (getDocumentSettings
            (uri (mkTextDocument "file:///a.carbon" 1 "hello")) st).1
    with (GetConfiguration 0) in Hpass.
  change (replies st !! 0%nat) with (@None Reply) in Hpass.
  destruct Hpass as (Hsent & _ & _ & Hlater).
  split; [exact Hsent | exact (Hlater (Some defaultSettings))].
Defined.

(** ** A failed resolution *)

(** C2, as stated, fails, for both ways a resolution can give no settings.
    When the client answers the request with no value, the thenable stays
    in the cache: the next lookup returns it and issues no request. When
    the client rejects the request, nothing is published for the document
    and the process has ended. *)
Lemma failed_resolution_counterexample :
  let opened :=
    run [Initialize (mkClientCaps (Some (mkWorkspaceCaps (Some true) None)) None);
         DidOpen "file:///a.carbon" 1 "hello"] initial in
  let no_value := deliver opened (ConfigurationResponse 0 (Fulfilled None)) in
  let rejected := deliver opened (ConfigurationResponse 0 Rejected) in
  exited no_value = false ∧
  (getDocumentSettings "file:///a.carbon" no_value).1 = GetConfiguration 0 ∧
  replies no_value !! 0%nat = Some (Fulfilled None) ∧
  requests (getDocumentSettings "file:///a.carbon" no_value).2
  = requests no_value ∧
  sent rejected = [] ∧
  exited rejected = true.
Proof. vm_compute. done. Qed.

(** C2, amended: the thenable of a resolution is cached before the client
    answers and is never replaced by a default. If the client fulfils the
    request, with settings or with no value, the pass publishes its
    sequence once, the thenable stays under its URI, every later lookup
    returns it without a new request and a later pass resumes with the
    same value, until the entry is removed by a close or a configuration
    change; the lookup after that issues a fresh request. If the client
    rejects the request, the pass publishes nothing and the process ends:
    no later event is handled. *)
Theorem failed_resolution_stays_cached (doc : nat) (td : TextDocument)
    (r : Reply) (st : Server) :
  consistent st →
  hasConfigurationCapability st = true →
  heap st !! doc = Some td →
  documentSettings st !! uri td = None →
  let id := length (requests st) in
  let st1 := validateTextDocument doc st in
  let st2 := settle id r st1 in
  requests st1 = requests st ++ [request (uri td)] ∧
  awaiting st1 = awaiting st ++ [(id, doc)] ∧
  documentSettings st1 !! uri td = Some (GetConfiguration id) ∧
  exited st1 = exited st ∧
  replies st2 !! id = Some r ∧
  match r with
  | Rejected =>
      sent st2 = sent st ∧
      exited st2 = true ∧
      ∀ e, deliver st2 e = st2
  | Fulfilled v =>
      sent st2 = sent st ++ [publish (uri td) []] ∧
      exited st2 = exited st ∧
      documentSettings st2 !! uri td = Some (GetConfiguration id) ∧
      getDocumentSettings (uri td) st2 = (GetConfiguration id, st2) ∧
      validateTextDocument doc st2 = resume doc v st2 ∧
      (getDocumentSettings (uri td) (onDidClose (uri td) st2)).1
      = GetConfiguration (S id) ∧
      (getDocumentSettings (uri td) (with_documentSettings ∅ st2)).1
      = GetConfiguration (S id)
  end.
Proof.
  intros Hst Hcap Htd Hmiss. simpl.
  assert (replies st !! length (requests st) = None) as Hfresh.
  { apply eq_None_not_Some. intros ?%(replies_issued _ Hst). lia. }
  destruct (awaiting_fresh st Hst) as [Hf1 Hf2].
  assert (validateTextDocument doc st
          = with_awaiting (awaiting st ++ [(length (requests st), doc)])
              (with_documentSettings
                 (<[uri td := GetConfiguration (length (requests st))]>
                    (documentSettings st))
                 (with_requests (requests st ++ [request (uri td)]) st)))
    as ->.
  { unfold validateTextDocument, getDocumentSettings.
    rewrite Htd, Hcap, Hmiss. simpl. by rewrite Hfresh. }
  unfold settle. simpl.
  rewrite bool_decide_eq_true_2 by (rewrite length_app; simpl; lia).
  rewrite bool_decide_eq_true_2 by done. simpl.
  rewrite !filter_app, Hf1, Hf2, !filter_cons, !filter_nil. simpl.
  rewrite (decide_True (P := length (requests st) = length (requests st)))
    by done.
  rewrite (decide_False (P := length (requests st) ≠ length (requests st)))
    by (intros Hne; by apply Hne).
  rewrite app_nil_r, lookup_insert_eq.
  destruct r as [v|]; simpl; unfold resume; simpl; rewrite ?Htd; simpl.
  - unfold validateTextDocument, getDocumentSettings; simpl.
    rewrite ?Htd, ?Hcap; simpl.
    rewrite ?lookup_insert_eq, ?lookup_delete_eq, ?lookup_empty; simpl.
    rewrite ?lookup_insert_eq; simpl.
    unfold resume; simpl; rewrite ?Htd, ?length_app, ?Nat.add_1_r; simpl.
    by rewrite ?lookup_insert_eq.
  - rewrite lookup_insert_eq. by repeat split.
Qed.

Lemma failed_resolution_stays_cached_witness :
  let st0 :=
    run [Initialize (mkClientCaps (Some (mkWorkspaceCaps (Some true) None)) None)]
      initial in
  let opened :=
    with_documents (heap st0 ++ [mkTextDocument "file:///a.carbon" 1 "hello"])
      (synced_set "file:///a.carbon" (length (heap st0)) (documents st0)) st0 in
  let st2 := settle 0 (Fulfilled None) (validateTextDocument 0 opened) in
  st2 = run [Initialize (mkClientCaps (Some (mkWorkspaceCaps (Some true) None)) None);
             DidOpen "file:///a.carbon" 1 "hello";
             ConfigurationResponse 0 (Fulfilled None)] initial ∧
  getDocumentSettings "file:///a.carbon" st2 = (GetConfiguration 0, st2) ∧
  sent st2 = [publish "file:///a.carbon" []] ∧
  validateTextDocument 0 st2 = resume 0 None st2.
Proof.
  intros st0 opened st2. split; [reflexivity |].
  assert (consistent opened) as Hopened.
  { apply opened_consistent, reachable_consistent.
    exists [Initialize (mkClientCaps (Some (mkWorkspaceCaps (Some true) None)) None)].
    reflexivity. }
  destruct (failed_resolution_stays_cached 0
              (mkTextDocument "file:///a.carbon" 1 "hello") (Fulfilled None)
              opened Hopened eq_refl eq_refl eq_refl)
    as (_ & _ & _ & _ & _ & Hsent & _ & _ & Hhit & Hagain & _).
  split; [exact Hhit |]. split; [exact Hsent | exact Hagain].
Defined.

End SessionFacts.

(** * Further properties of the completion handlers *)

Section CompletionExtras.
Import Completion Catalog.

(** X3: Resolving twice is resolving once: the second pass finds the same
    [data] and assigns the same two texts, or again none. *)
Theorem resolve_idempotent (item : CompletionItem) :
  onCompletionResolve (onCompletionResolve item) = onCompletionResolve item.
Proof.
  destruct (mapped (data item)) eqn:Hm.
  - unfold mapped in Hm. destruct (data item) as [[| |n|]|] eqn:Hd; try discriminate.
    destruct (resolve_on_mapped item n Hd) as (d & doc & Hdetail & ->); [lia |].
    destruct (resolve_on_mapped (assign item d doc) n) as (d' & doc' & Hdetail' & ->);
      [done | lia |].
    rewrite Hdetail in Hdetail'. by simplify_eq.
  - rewrite (resolve_on_unmapped item Hm). by apply resolve_on_unmapped.
Qed.

(** X4: Every item the list handler offers has a tag with a branch in the
    resolve handler, so resolving it fills in both texts, those of
    [CompletionDetail] for its tag; the label stays. No offered item has
    tag 5: that branch is never taken for an item of the list. *)
Theorem catalog_items_resolve (p : TextDocumentPositionParams)
    (item : CompletionItem) :
  item ∈ onCompletion p →
  ∃ n d doc,
    tag item = Some n ∧ n ≠ 5 ∧
    CompletionDetail n = Some (d, doc) ∧
    onCompletionResolve item
    = {| label := label item; kind := Some CompletionItemKind_Text;
         data := Some (LSPnumber n);
         detail := Some d; documentation := Some doc |}.
Proof.
  intros Hin.
  assert (∃ l n, item = entry l n ∧ 1 ≤ n ≤ 6 ∧ n ≠ 5) as (l & n & -> & Hn & Hn5).
  { unfold onCompletion, VARIABLES, FUNCTIONS in Hin. simpl in Hin.
    repeat (apply elem_of_cons in Hin as [-> | Hin];
            [do 2 eexists; split; [reflexivity | lia] |]).
    by apply elem_of_nil in Hin. }
  destruct (resolve_on_mapped (entry l n) n eq_refl Hn) as (d & doc & Hd & ->).
  by exists n, d, doc.
Qed.

Lemma catalog_items_resolve_witness :
  ∃ n d doc,
    tag (entry "fn" 6) = Some n ∧ n ≠ 5 ∧
    CompletionDetail n = Some (d, doc) ∧
    onCompletionResolve (entry "fn" 6)
    = {| label := "fn"; kind := Some CompletionItemKind_Text;
         data := Some (LSPnumber n);
         detail := Some d; documentation := Some doc |}.
Proof.
  apply (catalog_items_resolve (mkPositionParams "file:///a.carbon" (mkPosition 0 0))
           (entry "fn" 6)).
  unfold onCompletion. apply elem_of_app. right.
  unfold FUNCTIONS. repeat (first [left | right]).
Defined.

End CompletionExtras.

(** * Properties of the initialization *)

Section NegotiationFacts.
Import Session Negotiation.

Lemma configuration_flag (c : ClientCapabilities) (st : Server) :
  hasConfigurationCapability (onInitialize c st) = true
  ↔ ∃ w, workspace c = Some w ∧ configuration w = Some true.
Proof.
  simpl. destruct (workspace c) as [w|]; simpl.
  - destruct (configuration w) as [[]|] eqn:Hw; simpl; split;
      try done; [by exists w | intros (w' & [= <-] & Hw'); congruence..].
  - split; [done | by intros (w & ? & _)].
Qed.

Lemma workspaceFolders_flag (c : ClientCapabilities) (st : Server) :
  hasWorkspaceFolderCapability (onInitialize c st) = true
  ↔ ∃ w, workspace c = Some w ∧ workspaceFolders w = Some true.
Proof.
  simpl. destruct (workspace c) as [w|]; simpl.
  - destruct (workspaceFolders w) as [[]|] eqn:Hw; simpl; split;
      try done; [by exists w | intros (w' & [= <-] & Hw'); congruence..].
  - split; [done | by intros (w & ? & _)].
Qed.

Lemma relatedInformation_flag (c : ClientCapabilities) (st : Server) :
  hasDiagnosticRelatedInformationCapability (onInitialize c st) = true
  ↔ ∃ t p, textDocument c = Some t ∧ publishDiagnostics t = Some p
           ∧ relatedInformation p = Some true.
Proof.
  simpl. destruct (textDocument c) as [t|]; simpl;
    [| split; [done | by intros (t & p & ? & _)]].
  destruct (publishDiagnostics t) as [p|] eqn:Hp; simpl;
    [| split; [done | intros (t' & p' & [= <-] & Hp' & _); congruence]].
  destruct (relatedInformation p) as [[]|] eqn:Hr; simpl; split;
    try done; [by exists t, p | intros (t' & p' & [= <-] & Hp' & Hr'); congruence..].
Qed.

Lemma onInitialized_registrations (st : Server) :
  (RegisterDidChangeConfiguration ∈ onInitialized st
   ↔ hasConfigurationCapability st = true) ∧
  (OnDidChangeWorkspaceFolders ∈ onInitialized st
   ↔ hasWorkspaceFolderCapability st = true).
Proof.
  unfold onInitialized. rewrite !list_elem_of_In.
  destruct (hasConfigurationCapability st), (hasWorkspaceFolderCapability st);
    simpl; intuition congruence.
Qed.

(** X1: [onInitialize] sets each flag to true exactly when the client's
    payload has the property with its parents present and the value true;
    a missing parent or property gives false. The flags do not depend on
    the state before, and nothing else of the session changes. *)
Theorem onInitialize_flags (c : ClientCapabilities) (st : Server) :
  let st' := onInitialize c st in
  (hasConfigurationCapability st' = true
   ↔ ∃ w, workspace c = Some w ∧ configuration w = Some true) ∧
  (hasWorkspaceFolderCapability st' = true
   ↔ ∃ w, workspace c = Some w ∧ workspaceFolders w = Some true) ∧
  (hasDiagnosticRelatedInformationCapability st' = true
   ↔ ∃ t p, textDocument c = Some t ∧ publishDiagnostics t = Some p
            ∧ relatedInformation p = Some true) ∧
  globalSettings st' = globalSettings st ∧
  documentSettings st' = documentSettings st ∧
  heap st' = heap st ∧ documents st' = documents st ∧
  requests st' = requests st ∧ replies st' = replies st ∧
  awaiting st' = awaiting st ∧ sent st' = sent st.
Proof.
  split; [apply configuration_flag |].
  split; [apply workspaceFolders_flag |].
  split; [apply relatedInformation_flag | done].
Qed.

(** X2: The answer to initialize always advertises incremental text
    synchronization and completion with resolve; it advertises workspace
    folders exactly when the client declared them, and has no workspace
    entry otherwise. What [onInitialized] then registers follows the same
    payload: the configuration-change registration iff the client declared
    [workspace.configuration], the folder-change handler iff it declared
    [workspace.workspaceFolders]. *)
Theorem initialize_advertises (c : ClientCapabilities) (st : Server) :
  textDocumentSync (initializeResult c st) = Some TextDocumentSyncKind_Incremental ∧
  completionProvider (initializeResult c st)
  = Some {| resolveProvider := Some true |} ∧
  server_workspaceFolders (initializeResult c st)
  = (if hasWorkspaceFolderCapability (onInitialize c st)
     then Some {| supported := Some true |} else None) ∧
  (is_Some (server_workspaceFolders (initializeResult c st))
   ↔ ∃ w, workspace c = Some w ∧ workspaceFolders w = Some true) ∧
  (RegisterDidChangeConfiguration ∈ onInitialized (onInitialize c st)
   ↔ ∃ w, workspace c = Some w ∧ configuration w = Some true) ∧
  (OnDidChangeWorkspaceFolders ∈ onInitialized (onInitialize c st)
   ↔ ∃ w, workspace c = Some w ∧ workspaceFolders w = Some true).
Proof.
  destruct (onInitialized_registrations (onInitialize c st)) as [Hreg Hfold].
  rewrite Hreg, Hfold, configuration_flag, workspaceFolders_flag.
  rewrite <- (workspaceFolders_flag c st). unfold initializeResult.
  destruct (hasWorkspaceFolderCapability (onInitialize c st)) eqn:Hflag.
  - repeat split; try done. all: by eauto.
  - repeat split; try done. all: by intros [? ?].
Qed.

End NegotiationFacts.

(** * Further properties of the session *)

Section SessionExtras.
Import Session Invariant Coherence.

(** ** The three ways a validation pass can go *)

Lemma validateTextDocument_global doc td st :
  hasConfigurationCapability st = false → heap st !! doc = Some td →
  validateTextDocument doc st = with_sent (sent st ++ [publish (uri td) []]) st.
Proof.
  intros Hcap Htd. unfold validateTextDocument, getDocumentSettings.
  rewrite Htd, Hcap. simpl. unfold resume. by rewrite Htd.
Qed.

Lemma validateTextDocument_miss doc td st :
  consistent st → hasConfigurationCapability st = true →
  heap st !! doc = Some td → documentSettings st !! uri td = None →
  validateTextDocument doc st
  = with_awaiting (awaiting st ++ [(length (requests st), doc)])
      (with_documentSettings
         (<[uri td := GetConfiguration (length (requests st))]>
            (documentSettings st))
         (with_requests (requests st ++ [request (uri td)]) st)).
Proof.
  intros Hst Hcap Htd Hmiss.
  assert (replies st !! length (requests st) = None) as Hfresh.
  { apply eq_None_not_Some. intros ?%(replies_issued _ Hst). lia. }
  unfold validateTextDocument, getDocumentSettings.
  rewrite Htd, Hcap, Hmiss. simpl. by rewrite Hfresh.
Qed.

Lemma validateTextDocument_hit doc td t st :
  hasConfigurationCapability st = true →
  heap st !! doc = Some td → documentSettings st !! uri td = Some t →
  requests (validateTextDocument doc st) = requests st ∧
  documentSettings (validateTextDocument doc st) = documentSettings st.
Proof.
  intros Hcap Htd Hhit. unfold validateTextDocument, getDocumentSettings.
  rewrite Htd, Hcap, Hhit. simpl. destruct t as [s|id].
  - by destruct (resume_fields doc (Some s) st) as (_ & _ & -> & -> & _).
  - destruct (replies st !! id) as [[v|]|]; [| done..].
    by destruct (resume_fields doc v st) as (_ & _ & -> & -> & _).
Qed.

(** ** Coherence is kept by every handler *)

Lemma exit_coherent st : coherent st → coherent (exit st).
Proof. intros [H1 H2 H3]. by constructor. Qed.

Lemma resume_coherent doc v st : coherent st → coherent (resume doc v st).
Proof.
  intros [H1 H2 H3]. unfold resume.
  destruct (heap st !! doc) as [td|] eqn:Htd; [| by constructor].
  constructor; simpl; try done.
  apply Forall_app. split; [done |]. apply Forall_singleton. simpl.
  split; [done |]. exists td. split; [| done]. by eapply list_elem_of_lookup_2.
Qed.

Lemma getDocumentSettings_coherent k st :
  coherent st → coherent (getDocumentSettings k st).2.
Proof.
  intros [H1 H2 H3]. unfold getDocumentSettings.
  destruct (hasConfigurationCapability st); simpl; [| by constructor].
  destruct (documentSettings st !! k) eqn:Hl; simpl; [by constructor |].
  constructor; simpl; try done.
  intros k' t Ht. destruct (decide (k = k')) as [<- | Hne].
  - rewrite lookup_insert_eq in Ht. simplify_eq.
    exists (length (requests st)). split; [done |].
    rewrite lookup_app_r by done. by rewrite Nat.sub_diag.
  - rewrite lookup_insert_ne in Ht by done.
    destruct (H2 _ _ Ht) as (i & -> & Hi). exists i. split; [done |].
    by apply lookup_app_l_Some.
Qed.

Lemma validateTextDocument_coherent doc st :
  coherent st → coherent (validateTextDocument doc st).
Proof.
  intros Hst. unfold validateTextDocument.
  destruct (heap st !! doc) as [td|]; [| done].
  pose proof (getDocumentSettings_coherent (uri td) st Hst) as Hst1.
  destruct (getDocumentSettings (uri td) st) as [result st1]; simpl in *.
  destruct result as [s|id]; [by apply resume_coherent |].
  destruct (replies st1 !! id) as [[v|]|];
    [by apply resume_coherent | by apply exit_coherent |].
  destruct Hst1. by constructor.
Qed.

Lemma foldl_validate_coherent (l : list (string * nat)) st :
  coherent st → coherent (foldl (λ s p, validateTextDocument p.2 s) st l).
Proof.
  revert st. induction l as [|p l IH]; simpl; [done |].
  intros st Hst. by apply IH, validateTextDocument_coherent.
Qed.

Lemma foldl_resume_coherent v (l : list (nat * nat)) st :
  coherent st → coherent (foldl (λ s p, resume p.2 v s) st l).
Proof.
  revert st. induction l as [|p l IH]; simpl; [done |].
  intros st Hst. by apply IH, resume_coherent.
Qed.

Lemma synced_set_keys k v m :
  NoDup m.*1 → NoDup (synced_set k v m).*1 ∧
               ∀ k', k' ∈ (synced_set k v m).*1 → k' = k ∨ k' ∈ m.*1.
Proof.
  induction m as [|[k1 v1] m IH]; simpl.
  - intros _. split; [apply NoDup_singleton |].
    intros k' ?%list_elem_of_singleton. by left.
  - intros [Hk1 Hm]%NoDup_cons. destruct (IH Hm) as [IH1 IH2].
    case_decide as Hk; simpl.
    + subst k1. split; [by apply NoDup_cons |].
      intros k' [-> | ?]%elem_of_cons; [by left | right; by right].
    + split.
      * apply NoDup_cons. split; [| done].
        intros [? | ?]%IH2; [congruence | done].
      * intros k' [-> | [? | ?]%IH2]%elem_of_cons;
          [right; left | by left | right; by right].
Qed.

Lemma synced_delete_keys k m : NoDup m.*1 → NoDup (synced_delete k m).*1.
Proof.
  unfold synced_delete. induction m as [|[k1 v1] m IH]; simpl; [done |].
  intros [Hk1 Hm]%NoDup_cons. rewrite filter_cons. simpl.
  case_decide; simpl; [| by apply IH].
  apply NoDup_cons. split; [| by apply IH].
  intros ((k2 & v2) & -> & [_ Hin]%list_elem_of_filter)%list_elem_of_fmap.
  apply Hk1. apply list_elem_of_fmap. by exists (k2, v2).
Qed.

Lemma step_coherent st e :
  consistent st → coherent st → coherent (step st e).
Proof.
  intros Hcons Hst. destruct e; simpl.
  - destruct Hst. by constructor.
  - unfold onDidChangeConfiguration.
    destruct (hasConfigurationCapability st).
    + apply foldl_validate_coherent. destruct Hst as [H1 H2 H3].
      constructor; simpl; try done;
        intros k t Ht; by rewrite lookup_empty in Ht.
    + destruct settings as [languageServerExample|]; [| done].
      apply foldl_validate_coherent. destruct Hst. by constructor.
  - unfold didOpen, onDidChangeContent. apply validateTextDocument_coherent.
    destruct Hst as [H1 H2 H3]. constructor; simpl; try done.
    + by apply synced_set_keys.
    + eapply Forall_impl; [exact H3 |]. simpl.
      intros p (Hp & td & Htd & Hu). split; [done |]. exists td.
      split; [| done]. apply elem_of_app. by left.
  - unfold didChange, onDidChangeContent.
    destruct (synced_get u (documents st)) as [doc|] eqn:Hget; [| done].
    apply synced_get_Some in Hget.
    destruct (synced_live _ Hcons _ _ Hget) as (td0 & Htd0 & Hu0).
    apply validateTextDocument_coherent.
    destruct Hst as [H1 H2 H3]. constructor; simpl; try done.
    eapply Forall_impl; [exact H3 |]. simpl.
    intros p (Hp & td & Htd & Hu). split; [done |].
    apply list_elem_of_lookup in Htd as [j Hj].
    destruct (decide (j = doc)) as [-> | Hne].
    + exists (mkTextDocument u v text). split; [| simpl; congruence].
      eapply list_elem_of_lookup_2. apply list_lookup_insert_eq.
      by eapply lookup_lt_Some.
    + exists td. split; [| done].
      eapply list_elem_of_lookup_2. by rewrite list_lookup_insert_ne.
  - unfold didClose, onDidClose.
    destruct (synced_get u (documents st)) as [doc|]; [| done].
    destruct Hst as [H1 H2 H3]. constructor; simpl; try done.
    + by apply synced_delete_keys.
    + intros k t Ht. destruct (decide (u = k)) as [<- | Hne].
      * by rewrite lookup_delete_eq in Ht.
      * rewrite lookup_delete_ne in Ht by done. eauto.
  - done.
  - unfold settle. case_match; [| done].
    assert (coherent
              (with_replies (<[id:=r]> (replies st))
                 (with_awaiting (filter (λ p, p.1 ≠ id) (awaiting st)) st)))
      as Hst1 by (destruct Hst; by constructor).
    destruct r as [v|]; [by apply foldl_resume_coherent | by apply exit_coherent].
Qed.

Lemma reachable_coherent st : reachable st → consistent st ∧ coherent st.
Proof.
  intros [events ->]. unfold run.
  assert (∀ s, consistent s → coherent s →
               consistent (foldl deliver s events)
               ∧ coherent (foldl deliver s events))
    as Hgen.
  { induction events as [|e events IH]; simpl; [done |].
    intros s Hc Hs.
    apply IH; [by apply deliver_consistent |].
    unfold deliver. destruct (exited s); [done | by apply step_coherent]. }
  apply Hgen; [apply initial_consistent |].
  constructor; simpl; [apply NoDup_nil_2 | | done].
  intros k t Ht. by rewrite lookup_empty in Ht.
Qed.

(** ** What reachable states look like *)

(** X5: A cached thenable is never the global record: in every reachable
    state the entry filed under a URI is the promise of a configuration
    request that was issued for that very URI and the section
    [languageServerExample], and no other URI shares it. *)
Theorem cached_thenable_is_own_request (st : Server) (k : string) (t : Thenable) :
  reachable st →
  documentSettings st !! k = Some t →
  ∃ i, t = GetConfiguration i ∧
       requests st !! i
       = Some {| scopeUri := k; section := "languageServerExample" |} ∧
       ∀ k', documentSettings st !! k' = Some t → k' = k.
Proof.
  intros [_ Hst]%reachable_coherent Hk.
  destruct (cached_request _ Hst _ _ Hk) as (i & -> & Hi).
  exists i. repeat split; [done |].
  intros k' Hk'. destruct (cached_request _ Hst _ _ Hk') as (j & [= <-] & Hj).
  rewrite Hi in Hj. by simplify_eq.
Qed.

Lemma cached_thenable_is_own_request_witness :
  let st :=
    run [Initialize (mkClientCaps (Some (mkWorkspaceCaps (Some true) None)) None);
         DidOpen "file:///a.carbon" 1 "hello";
         DidOpen "file:///b.carbon" 1 "world"] initial in
  ∃ i, GetConfiguration 1 = GetConfiguration i ∧
       requests st !! i
       = Some {| scopeUri := "file:///b.carbon";
                 section := "languageServerExample" |} ∧
       ∀ k', documentSettings st !! k' = Some (GetConfiguration 1) →
             k' = "file:///b.carbon".
Proof.
  intros st.
  apply (cached_thenable_is_own_request st "file:///b.carbon" (GetConfiguration 1)).
  - exists [Initialize (mkClientCaps (Some (mkWorkspaceCaps (Some true) None)) None);
            DidOpen "file:///a.carbon" 1 "hello";
            DidOpen "file:///b.carbon" 1 "world"].
    reflexivity.
  - vm_compute. reflexivity.
Defined.

(** X6: The server never reports a problem: in every reachable state each
    publish sent so far carries the empty diagnostic sequence, and its URI
    is that of a document object the manager created. *)
Theorem publishes_are_empty (st : Server) :
  reachable st →
  Forall (λ p, diagnostics p = []
               ∧ ∃ td, td ∈ heap st ∧ uri td = publish_uri p)
    (sent st).
Proof. intros [_ Hst]%reachable_coherent. apply (sent_empty _ Hst). Qed.

Lemma publishes_are_empty_witness :
  let st :=
    run [DidOpen "file:///a.carbon" 1 "HELLO";
         DidChange "file:///a.carbon" 2 "HELLO WORLD"] initial in
  length (sent st) = 2%nat ∧
  Forall (λ p, diagnostics p = []
               ∧ ∃ td, td ∈ heap st ∧ uri td = publish_uri p)
    (sent st).
Proof.
  intros st. split; [reflexivity |].
  apply (publishes_are_empty st).
  exists [DidOpen "file:///a.carbon" 1 "HELLO";
          DidChange "file:///a.carbon" 2 "HELLO WORLD"].
  reflexivity.
Defined.

(** X7: The cache never holds more entries than there are open documents. *)
Theorem cache_bounded_by_open_documents (st : Server) :
  reachable st →
  (size (documentSettings st) ≤ length (documents st))%nat.
Proof.
  intros [Hcons Hst]%reachable_coherent.
  rewrite <- size_dom, <- (length_fmap fst (documents st)).
  rewrite <- (size_list_to_set (C := gset string)) by apply (keys_distinct _ Hst).
  apply subseteq_size. intros k Hk%elem_of_dom.
  apply elem_of_list_to_set.
  destruct (cached_synced _ Hcons _ Hk) as [d Hd].
  apply synced_get_Some in Hd. apply list_elem_of_fmap. by exists (k, d).
Qed.

Lemma cache_bounded_by_open_documents_witness :
  let st :=
    run [Initialize (mkClientCaps (Some (mkWorkspaceCaps (Some true) None)) None);
         DidOpen "file:///a.carbon" 1 "hello";
         DidOpen "file:///b.carbon" 1 "world";
         DidClose "file:///a.carbon"] initial in
  length (documents st) = 1%nat ∧
  (size (documentSettings st) ≤ length (documents st))%nat.
Proof.
  intros st. split; [reflexivity |].
  apply (cache_bounded_by_open_documents st).
  exists [Initialize (mkClientCaps (Some (mkWorkspaceCaps (Some true) None)) None);
          DidOpen "file:///a.carbon" 1 "hello";
          DidOpen "file:///b.carbon" 1 "world";
          DidClose "file:///a.carbon"].
  reflexivity.
Defined.

(** ** Configuration changes *)

Lemma with_sent_id st : with_sent (sent st) st = st.
Proof. by destruct st. Qed.

Lemma foldl_validate_global (l : list (string * nat)) st :
  hasConfigurationCapability st = false →
  (∀ k d, (k, d) ∈ l → ∃ td, heap st !! d = Some td ∧ uri td = k) →
  foldl (λ s p, validateTextDocument p.2 s) st l
  = with_sent (sent st ++ map (λ p, publish p.1 []) l) st.
Proof.
  revert st. induction l as [|[k d] l IH]; simpl; intros st Hcap Hl.
  - by rewrite app_nil_r, with_sent_id.
  - destruct (Hl k d) as (td & Htd & <-); [left |].
    rewrite (validateTextDocument_global d td) by done.
    rewrite IH; simpl; [| done | intros k' d' Hin; apply Hl; by right].
    unfold with_sent. simpl. by rewrite <- app_assoc.
Qed.

(** X9: Without the configuration capability a configuration change replaces
    the global record by the payload's [languageServerExample], or by the
    default when that is missing, and then publishes once for every open
    document, in the manager's order; nothing else changes, and every
    lookup afterwards returns the new record. A change whose [settings] is
    [null] changes nothing at all: the handler throws before it assigns. *)
Theorem configuration_change_without_capability
    (settings : option (option ExampleSettings)) (st : Server) :
  consistent st →
  hasConfigurationCapability st = false →
  let st' := onDidChangeConfiguration settings st in
  st' = match settings with
        | None => st
        | Some languageServerExample =>
            with_sent (sent st ++ map (λ p, publish p.1 []) (documents st))
              (with_globalSettings
                 (default defaultSettings languageServerExample) st)
        end ∧
  ∀ u, getDocumentSettings u st' = (PromiseResolve (globalSettings st'), st').
Proof.
  intros Hst Hcap. simpl.
  assert (hasConfigurationCapability (onDidChangeConfiguration settings st) = false)
    as Hcap'.
  { unfold onDidChangeConfiguration. rewrite Hcap.
    destruct settings as [languageServerExample|]; [| done].
    unfold revalidate. simpl.
    set (base := with_globalSettings _ st).
    assert (hasConfigurationCapability base = false) as Hb by done.
    revert Hb. generalize base. clear.
    induction (documents st) as [|p l IH]; simpl; [done |].
    intros s Hs. apply IH.
    by destruct (validateTextDocument_fields p.2 s) as (_ & _ & _ & ->). }
  split.
  - unfold onDidChangeConfiguration, revalidate. rewrite Hcap.
    destruct settings as [languageServerExample|]; [| done]. simpl.
    apply (foldl_validate_global (documents st)
             (with_globalSettings (default defaultSettings languageServerExample)
                st));
      [done |].
    intros k d Hin. by apply (synced_live _ Hst).
  - intros u. unfold getDocumentSettings. by rewrite Hcap'.
Qed.

Lemma configuration_change_without_capability_witness :
  let st :=
    run [DidOpen "file:///a.carbon" 1 "hello";
         DidOpen "file:///b.carbon" 1 "world"] initial in
  let st' := onDidChangeConfiguration (Some (Some (mkSettings 5))) st in
  st' = with_sent (sent st ++ [publish "file:///a.carbon" [];
                               publish "file:///b.carbon" []])
          (with_globalSettings (mkSettings 5) st) ∧
  ∀ u, getDocumentSettings u st' = (PromiseResolve (globalSettings st'), st').
Proof.
  intros st st'.
  apply (configuration_change_without_capability (Some (Some (mkSettings 5))) st).
  - apply reachable_consistent.
    exists [DidOpen "file:///a.carbon" 1 "hello";
            DidOpen "file:///b.carbon" 1 "world"].
    reflexivity.
  - reflexivity.
Defined.

Lemma foldl_validate_miss (l : list (string * nat)) st :
  consistent st →
  hasConfigurationCapability st = true →
  NoDup l.*1 →
  l ⊆ documents st →
  (∀ k, k ∈ l.*1 → documentSettings st !! k = None) →
  let st' := foldl (λ s p, validateTextDocument p.2 s) st l in
  requests st' = requests st ++ map (λ p, request p.1) l ∧
  sent st' = sent st ∧
  globalSettings st' = globalSettings st ∧
  (∀ i k d, l !! i = Some (k, d) →
     documentSettings st' !! k
     = Some (GetConfiguration (length (requests st) + i))) ∧
  (∀ k, k ∉ l.*1 → documentSettings st' !! k = documentSettings st !! k).
Proof.
  revert st. induction l as [|[k d] l IH]; intros st Hst Hcap Hnd Hsub Hnone.
  - simpl. rewrite app_nil_r. by repeat split.
  - simpl in Hnd. apply NoDup_cons in Hnd as [Hk Hnd].
    assert ((k, d) ∈ documents st) as Hin by (apply Hsub; left).
    destruct (synced_live _ Hst _ _ Hin) as (td & Htd & <-).
    pose proof (validateTextDocument_consistent _ _ _ Hst Hin) as Hst1.
    pose proof (validateTextDocument_fields d st) as (_ & Hdocs & _ & Hcap1).
    assert (documentSettings st !! uri td = None) as Hmiss
      by (apply Hnone; simpl; left).
    pose proof (validateTextDocument_miss d td st Hst Hcap Htd Hmiss) as Hv.
    simpl. remember (validateTextDocument d st) as st1 eqn:Heq. clear Heq.
    assert (requests st1 = requests st ++ [request (uri td)]) as Hreq1
      by (by rewrite Hv).
    assert (sent st1 = sent st) as Hsent1 by (by rewrite Hv).
    assert (globalSettings st1 = globalSettings st) as Hglob1 by (by rewrite Hv).
    assert (documentSettings st1
            = <[uri td := GetConfiguration (length (requests st))]>
                (documentSettings st)) as Hcache1 by (by rewrite Hv).
    clear Hv.
    destruct (IH st1) as (Hr & Hs & Hg & Hc & Ho).
    + done.
    + by rewrite Hcap1.
    + done.
    + rewrite Hdocs. intros p Hp. apply Hsub. by right.
    + intros k' Hk'. rewrite Hcache1.
      rewrite lookup_insert_ne by (intros <-; done).
      apply Hnone. simpl. by right.
    + rewrite Hr, Hs, Hg, Hreq1, Hsent1, Hglob1, <- app_assoc. simpl.
      repeat split; try done.
      * intros i k' d' Hi. destruct i as [|i]; simpl in Hi.
        -- simplify_eq. rewrite Ho by done. rewrite Hcache1.
           by rewrite lookup_insert_eq, Nat.add_0_r.
        -- rewrite (Hc i k' d' Hi), Hreq1, length_app. simpl.
           do 2 f_equal. lia.
      * intros k' Hk'. apply not_elem_of_cons in Hk' as [Hne Hk'].
        rewrite Ho by done. rewrite Hcache1.
        by rewrite lookup_insert_ne.
Qed.

(** X10: With the configuration capability a configuration change drops every
    cached entry and validates every open document again: exactly one
    fresh request is issued per open document, in the manager's order, the
    cache afterwards holds these new promises for the open URIs and nothing
    else, nothing is published before the client answers, and the payload
    of the change and the global record play no part. *)
Theorem configuration_change_refetches
    (settings : option (option ExampleSettings)) (st : Server) :
  reachable st →
  hasConfigurationCapability st = true →
  let st' := onDidChangeConfiguration settings st in
  requests st' = requests st ++ map (λ p, request p.1) (documents st) ∧
  sent st' = sent st ∧
  globalSettings st' = globalSettings st ∧
  (∀ i k d, documents st !! i = Some (k, d) →
     documentSettings st' !! k
     = Some (GetConfiguration (length (requests st) + i))) ∧
  (∀ k, k ∉ (documents st).*1 → documentSettings st' !! k = None).
Proof.
  intros [Hcons Hst]%reachable_coherent Hcap. simpl.
  unfold onDidChangeConfiguration, revalidate. rewrite Hcap.
  assert (consistent (with_documentSettings ∅ st)) as Hbase.
  { destruct Hcons as [H1 H2 H3 H4 H5]. constructor; simpl; try done;
      intros k; intros; by rewrite lookup_empty in *. }
  destruct (foldl_validate_miss (documents st) (with_documentSettings ∅ st))
    as (Hr & Hs & Hg & Hc & Ho);
    [done | done | apply (keys_distinct _ Hst) | done
    | intros k _; apply lookup_empty |].
  split; [exact Hr |]. split; [exact Hs |]. split; [exact Hg |].
  split; [exact Hc |].
  intros k Hk. etrans; [exact (Ho k Hk) | apply lookup_empty].
Qed.

Lemma configuration_change_refetches_witness :
  let st :=
    run [Initialize (mkClientCaps (Some (mkWorkspaceCaps (Some true) None)) None);
         DidOpen "file:///a.carbon" 1 "hello";
         DidOpen "file:///b.carbon" 1 "world";
         ConfigurationResponse 0 (Fulfilled (Some (mkSettings 5)))] initial in
  let st' := onDidChangeConfiguration (Some None) st in
  requests st' = requests st ++ [request "file:///a.carbon";
                                 request "file:///b.carbon"] ∧
  sent st' = sent st.
Proof.
  intros st st'.
  assert (reachable st) as Hreach.
  { exists [Initialize (mkClientCaps (Some (mkWorkspaceCaps (Some true) None)) None);
            DidOpen "file:///a.carbon" 1 "hello";
            DidOpen "file:///b.carbon" 1 "world";
            ConfigurationResponse 0 (Fulfilled (Some (mkSettings 5)))].
    reflexivity. }
  destruct (configuration_change_refetches (Some None) st Hreach eq_refl)
    as (Hr & Hs & _).
  split; [exact Hr | exact Hs].
Defined.

(** ** Sessions without the configuration capability *)

Lemma validate_without_capability doc st :
  hasConfigurationCapability st = false →
  ∃ s, validateTextDocument doc st = with_sent s st.
Proof.
  intros Hcap. unfold validateTextDocument.
  destruct (heap st !! doc) as [td|] eqn:Htd.
  - exists (sent st ++ [publish (uri td) []]).
    rewrite <- (validateTextDocument_global doc td st Hcap Htd).
    unfold validateTextDocument. by rewrite Htd.
  - exists (sent st). by rewrite with_sent_id.
Qed.

Lemma foldl_validate_without_capability (l : list (string * nat)) st :
  hasConfigurationCapability st = false →
  ∃ s, foldl (λ s p, validateTextDocument p.2 s) st l = with_sent s st.
Proof.
  revert st. induction l as [|p l IH]; simpl; intros st Hcap.
  - exists (sent st). by rewrite with_sent_id.
  - destruct (validate_without_capability p.2 st Hcap) as [s1 ->].
    destruct (IH (with_sent s1 st)) as [s2 ->]; [done |]. by exists s2.
Qed.

(** X11: A session whose client never declares the configuration capability
    never asks the client for settings: whatever the other events, no
    request is issued, nothing is cached and no validation pass is left
    suspended. *)
Theorem no_capability_no_requests (events : list Event) :
  Forall (λ e, without_configuration e = true) events →
  let st := run events initial in
  hasConfigurationCapability st = false ∧
  requests st = [] ∧ documentSettings st = ∅ ∧ awaiting st = [].
Proof.
  intros Hall. simpl. unfold run.
  assert (∀ s,
            hasConfigurationCapability s = false ∧ requests s = []
            ∧ documentSettings s = ∅ ∧ awaiting s = [] →
            hasConfigurationCapability (foldl deliver s events) = false
            ∧ requests (foldl deliver s events) = []
            ∧ documentSettings (foldl deliver s events) = ∅
            ∧ awaiting (foldl deliver s events) = []) as Hgen.
  { induction Hall as [|e events He Hall IH]; simpl; [done |].
    intros s (Hcap & Hreq & Hcache & Hwait). apply IH.
    unfold deliver. destruct (exited s); [done |].
    destruct e; simpl.
    - simpl in He. apply negb_true_iff in He. done.
    - unfold onDidChangeConfiguration. rewrite Hcap.
      destruct settings as [languageServerExample|]; [| done].
      set (base := with_globalSettings
                     (default defaultSettings languageServerExample) s).
      destruct (foldl_validate_without_capability (documents base) base)
        as [s' Hs']; [done |].
      unfold revalidate. by rewrite Hs'.
    - unfold didOpen, onDidChangeContent.
      destruct (validate_without_capability (length (heap s))
                  (with_documents (heap s ++ [mkTextDocument u v text])
                     (synced_set u (length (heap s)) (documents s)) s))
        as [s' ->]; done.
    - unfold didChange, onDidChangeContent.
      destruct (synced_get u (documents s)) as [doc|]; [| done].
      destruct (validate_without_capability doc
                  (with_documents (<[doc:=mkTextDocument u v text]> (heap s))
                     (documents s) s))
        as [s' ->]; done.
    - unfold didClose, onDidClose.
      destruct (synced_get u (documents s)); [| done]. simpl.
      rewrite Hcache. by rewrite delete_empty.
    - done.
    - unfold settle.
      rewrite bool_decide_eq_false_2 by (rewrite Hreq; simpl; lia). done. }
  by apply Hgen.
Qed.

Lemma no_capability_no_requests_witness :
  let st :=
    run [Initialize (mkClientCaps (Some (mkWorkspaceCaps None (Some true))) None);
         DidOpen "file:///a.carbon" 1 "hello";
         DidChangeConfiguration (Some None);
         DidClose "file:///a.carbon"] initial in
  hasConfigurationCapability st = false ∧
  requests st = [] ∧ documentSettings st = ∅ ∧ awaiting st = [].
Proof.
  apply (no_capability_no_requests
           [Initialize (mkClientCaps (Some (mkWorkspaceCaps None (Some true))) None);
            DidOpen "file:///a.carbon" 1 "hello";
            DidChangeConfiguration (Some None);
            DidClose "file:///a.carbon"]).
  repeat (constructor; [reflexivity |]). constructor.
Defined.

(** ** The client's answer to a request *)

Lemma foldl_resume_fields v (l : list (nat * nat)) st :
  heap (foldl (λ s p, resume p.2 v s) st l) = heap st ∧
  requests (foldl (λ s p, resume p.2 v s) st l) = requests st ∧
  replies (foldl (λ s p, resume p.2 v s) st l) = replies st ∧
  awaiting (foldl (λ s p, resume p.2 v s) st l) = awaiting st ∧
  documentSettings (foldl (λ s p, resume p.2 v s) st l) = documentSettings st.
Proof.
  revert st. induction l as [|p l IH]; simpl; intros st; [done |].
  destruct (IH (resume p.2 v st)) as (-> & -> & -> & -> & ->).
  by destruct (resume_fields p.2 v st) as (-> & _ & -> & -> & -> & -> & _).
Qed.

Lemma foldl_resume_exited v (l : list (nat * nat)) st :
  exited (foldl (λ s p, resume p.2 v s) st l) = exited st.
Proof.
  revert st. induction l as [|p l IH]; simpl; intros st; [done |].
  rewrite IH. unfold resume. by destruct (heap st !! p.2).
Qed.

Lemma published_for_length (h : list TextDocument) (l : list (nat * nat)) :
  (∀ p, p ∈ l → is_Some (h !! p.2)) →
  length (published_for h l) = length l.
Proof.
  unfold published_for. induction l as [|p l IH]; simpl; [done |].
  intros Hl. destruct (Hl p) as [td Htd]; [left |]. rewrite Htd. simpl.
  f_equal. apply IH. intros q Hq. apply Hl. by right.
Qed.

(** X12: When the client settles a pending request, every validation pass
    suspended on it ends. On fulfilment each publishes once, in the order
    the passes were suspended and for the URI of its own document; no pass
    stays suspended on that request, passes waiting for other requests are
    untouched, the cache keeps the thenable, the process lives on, and a
    second answer to the same request is ignored. On rejection none
    publishes and the process ends: no later event is handled. *)
Theorem settling_ends_suspended_passes (id : nat) (r : Reply) (st : Server) :
  consistent st →
  (id < length (requests st))%nat →
  replies st !! id = None →
  let st' := settle id r st in
  let waiting := filter (λ p : nat * nat, p.1 = id) (awaiting st) in
  match r with
  | Fulfilled _ =>
      sent st' = sent st ++ published_for (heap st) waiting ∧
      length (sent st') = (length (sent st) + length waiting)%nat ∧
      awaiting st' = filter (λ p : nat * nat, p.1 ≠ id) (awaiting st) ∧
      documentSettings st' = documentSettings st ∧
      replies st' !! id = Some r ∧
      exited st' = exited st ∧
      ∀ r', settle id r' st' = st'
  | Rejected =>
      sent st' = sent st ∧
      exited st' = true ∧
      ∀ e, deliver st' e = st'
  end.
Proof.
  intros Hst Hlt Hnone. simpl. destruct r as [v|].
  - assert (length (published_for (heap st)
                      (filter (λ p : nat * nat, p.1 = id) (awaiting st)))
            = length (filter (λ p : nat * nat, p.1 = id) (awaiting st))) as Hlen.
    { apply published_for_length. intros [i d] [_ Hin]%list_elem_of_filter.
      by destruct (awaiting_pending _ Hst _ _ Hin) as (_ & _ & ?). }
    rewrite settle_fulfilled_sent by done.
    unfold settle. rewrite !bool_decide_eq_true_2 by done. simpl.
    set (base := with_replies (<[id:=Fulfilled v]> (replies st))
                   (with_awaiting
                      (filter (λ p : nat * nat, p.1 ≠ id) (awaiting st)) st)).
    set (waiting := filter (λ p : nat * nat, p.1 = id) (awaiting st)) in *.
    destruct (foldl_resume_fields v waiting base) as (_ & Hreq & Hrep & Ha & Hc).
    pose proof (foldl_resume_exited v waiting base) as Hex.
    split; [done |]. split; [by rewrite length_app, Hlen |].
    split; [by rewrite Ha |]. split; [by rewrite Hc |].
    split; [rewrite Hrep; apply lookup_insert_eq |]. split; [exact Hex |].
    intros r'.
    rewrite (bool_decide_eq_false_2
               (replies (foldl (λ s (p : nat * nat), resume p.2 v s) base waiting)
                  !! id = None))
      by (rewrite Hrep; simpl; by rewrite lookup_insert_eq).
    by rewrite andb_false_r.
  - split; [apply settle_rejected_sent |].
    unfold settle. rewrite !bool_decide_eq_true_2 by done. simpl.
    split; [done |]. intros e. reflexivity.
Qed.

Lemma settling_ends_suspended_passes_witness :
  let st :=
    run [Initialize (mkClientCaps (Some (mkWorkspaceCaps (Some true) None)) None);
         DidOpen "file:///a.carbon" 1 "hello";
         DidChange "file:///a.carbon" 2 "HELLO"] initial in
  awaiting st = [(0, 0); (0, 0)]%nat ∧
  sent (settle 0 (Fulfilled None) st)
  = sent st ++ published_for (heap st) [(0, 0); (0, 0)]%nat ∧
  length (sent (settle 0 (Fulfilled None) st)) = 2%nat ∧
  settle 0 Rejected (settle 0 (Fulfilled None) st) = settle 0 (Fulfilled None) st.
Proof.
  intros st. split; [reflexivity |].
  assert (consistent st) as Hst.
  { apply reachable_consistent.
    exists [Initialize (mkClientCaps (Some (mkWorkspaceCaps (Some true) None)) None);
            DidOpen "file:///a.carbon" 1 "hello";
            DidChange "file:///a.carbon" 2 "HELLO"].
    reflexivity. }
  assert (0 < length (requests st))%nat as Hlt by (vm_compute; lia).
  destruct (settling_ends_suspended_passes 0 (Fulfilled None) st
              Hst Hlt eq_refl)
    as (Hsent & Hlen & _ & _ & _ & _ & Hagain).
  split; [exact Hsent |]. split; [exact Hlen | exact (Hagain Rejected)].
Defined.

(** ** Opening and closing *)

Lemma didClose_fields u st :
  heap (didClose u st) = heap st ∧
  requests (didClose u st) = requests st ∧
  replies (didClose u st) = replies st ∧
  awaiting (didClose u st) = awaiting st ∧
  sent (didClose u st) = sent st ∧
  hasConfigurationCapability (didClose u st) = hasConfigurationCapability st.
Proof. unfold didClose, onDidClose. by destruct (synced_get u (documents st)). Qed.

Lemma didClose_uncached u st :
  consistent st → documentSettings (didClose u st) !! u = None.
Proof.
  intros Hst. unfold didClose, onDidClose.
  destruct (synced_get u (documents st)) eqn:Hget; simpl.
  - apply lookup_delete_eq.
  - apply eq_None_not_Some. intros Hs%(cached_synced _ Hst).
    rewrite Hget in Hs. by destruct Hs.
Qed.

(** X13: Opening a document asks the client for its settings exactly when
    nothing is cached for its URI: opening a URI that still has an entry
    (it was opened before and not closed) issues no request and leaves the
    cache as it is, while opening after a close always issues one fresh
    request for the URI. *)
Theorem open_requests_settings_on_miss (u : string) (v : Z) (text : string)
    (st : Server) :
  consistent st →
  hasConfigurationCapability st = true →
  requests (didOpen u v text st)
  = match documentSettings st !! u with
    | Some _ => requests st
    | None => requests st ++ [request u]
    end ∧
  documentSettings (didOpen u v text st)
  = match documentSettings st !! u with
    | Some _ => documentSettings st
    | None => <[u := GetConfiguration (length (requests st))]> (documentSettings st)
    end ∧
  requests (didOpen u v text (didClose u st)) = requests st ++ [request u].
Proof.
  assert (∀ s, consistent s → hasConfigurationCapability s = true →
            requests (didOpen u v text s)
            = match documentSettings s !! u with
              | Some _ => requests s
              | None => requests s ++ [request u]
              end ∧
            documentSettings (didOpen u v text s)
            = match documentSettings s !! u with
              | Some _ => documentSettings s
              | None =>
                  <[u := GetConfiguration (length (requests s))]>
                    (documentSettings s)
              end) as Hopen.
  { intros s Hs Hcap. unfold didOpen, onDidChangeContent.
    pose proof (opened_consistent u v text s Hs) as Hopened.
    set (opened := with_documents _ _ s) in *.
    assert (heap opened !! length (heap s) = Some (mkTextDocument u v text))
      as Htd.
    { simpl. rewrite lookup_app_r by done. by rewrite Nat.sub_diag. }
    destruct (documentSettings s !! u) as [t|] eqn:Hl.
    - by apply (validateTextDocument_hit _ _ t opened Hcap Htd).
    - by rewrite (validateTextDocument_miss _ _ opened Hopened Hcap Htd Hl). }
  intros Hst Hcap. destruct (Hopen st Hst Hcap) as [Hr Hc].
  split; [exact Hr |]. split; [exact Hc |].
  destruct (didClose_fields u st) as (_ & Hreq & _ & _ & _ & Hcap').
  destruct (Hopen (didClose u st)) as [Hr' _].
  - by apply didClose_consistent.
  - by rewrite Hcap'.
  - by rewrite Hr', (didClose_uncached u st Hst), Hreq.
Qed.

Lemma open_requests_settings_on_miss_witness :
  let st :=
    run [Initialize (mkClientCaps (Some (mkWorkspaceCaps (Some true) None)) None);
         DidOpen "file:///a.carbon" 1 "hello"] initial in
  requests (didOpen "file:///a.carbon" 2 "again" st) = requests st ∧
  requests (didOpen "file:///a.carbon" 2 "again" (didClose "file:///a.carbon" st))
  = requests st ++ [request "file:///a.carbon"].
Proof.
  intros st.
  assert (consistent st) as Hst.
  { apply reachable_consistent.
    exists [Initialize (mkClientCaps (Some (mkWorkspaceCaps (Some true) None)) None);
            DidOpen "file:///a.carbon" 1 "hello"].
    reflexivity. }
  destruct (open_requests_settings_on_miss "file:///a.carbon" 2 "again" st
              Hst eq_refl) as (Hhit & _ & Hagain).
  split; [exact Hhit | exact Hagain].
Defined.

(** X14: Closing a document cancels nothing: the passes suspended for it stay
    suspended, and when the client later settles a request the same
    publishes are sent as if the document had not been closed. *)
Theorem close_cancels_nothing (u : string) (id : nat) (r : Reply) (st : Server) :
  awaiting (didClose u st) = awaiting st ∧
  sent (didClose u st) = sent st ∧
  sent (settle id r (didClose u st)) = sent (settle id r st).
Proof.
  destruct (didClose_fields u st) as (Hh & Hreq & Hrep & Ha & Hs & _).
  split; [exact Ha |]. split; [exact Hs |].
  destruct r as [v|]; [| by rewrite !settle_rejected_sent].
  destruct (decide ((id < length (requests st))%nat ∧ replies st !! id = None))
    as [[Hlt Hnone] | Hno].
  - rewrite !settle_fulfilled_sent by congruence. by rewrite Hh, Ha, Hs.
  - unfold settle. rewrite Hreq, Hrep.
    destruct (bool_decide (id < length (requests st))%nat) eqn:Hb1; simpl;
      [| done].
    destruct (bool_decide (replies st !! id = None)) eqn:Hb2; simpl; [| done].
    apply bool_decide_eq_true in Hb1. apply bool_decide_eq_true in Hb2.
    by destruct Hno.
Qed.

(** ** Rejections and the end of the process *)

Lemma foldl_validate_replies (l : list (string * nat)) st :
  replies (foldl (λ s p, validateTextDocument p.2 s) st l) = replies st.
Proof.
  revert st. induction l as [|p l IH]; simpl; intros st; [done |].
  rewrite IH. by destruct (validateTextDocument_fields p.2 st) as (_ & _ & -> & _).
Qed.

Lemma step_replies st e :
  (∀ i, replies st !! i ≠ Some Rejected) →
  exited (step st e) = true ∨ ∀ i, replies (step st e) !! i ≠ Some Rejected.
Proof.
  intros Hst. destruct e; simpl.
  - by right.
  - right. unfold onDidChangeConfiguration, revalidate.
    destruct (hasConfigurationCapability st).
    + by rewrite foldl_validate_replies.
    + destruct settings; [| done]. by rewrite foldl_validate_replies.
  - right. unfold didOpen, onDidChangeContent.
    by destruct (validateTextDocument_fields (length (heap st))
                   (with_documents (heap st ++ [mkTextDocument u v text])
                      (synced_set u (length (heap st)) (documents st)) st))
      as (_ & _ & -> & _).
  - right. unfold didChange, onDidChangeContent.
    destruct (synced_get u (documents st)) as [doc|]; [| done].
    by destruct (validateTextDocument_fields doc
                   (with_documents (<[doc:=mkTextDocument u v text]> (heap st))
                      (documents st) st))
      as (_ & _ & -> & _).
  - right. by destruct (didClose_fields u st) as (_ & _ & -> & _).
  - by right.
  - unfold settle. case_match; [| by right].
    destruct r as [v|]; [right | by left].
    intros i.
    destruct (foldl_resume_fields v
                (filter (λ p : nat * nat, p.1 = id) (awaiting st))
                (with_replies (<[id:=Fulfilled v]> (replies st))
                   (with_awaiting
                      (filter (λ p : nat * nat, p.1 ≠ id) (awaiting st)) st)))
      as (_ & _ & -> & _).
    simpl. destruct (decide (id = i)) as [<- | Hne].
    + by rewrite lookup_insert_eq.
    + by rewrite lookup_insert_ne.
Qed.

(** A session that is still alive has seen no rejection: the first
    rejected request ends the process, so the branch of a pass that finds
    an already rejected thenable is never taken by a living server. *)
Lemma live_session_has_no_rejection (st : Server) :
  reachable st → exited st = false → ∀ i, replies st !! i ≠ Some Rejected.
Proof.
  intros [events ->]. unfold run.
  assert (∀ s, (exited s = true ∨ ∀ i, replies s !! i ≠ Some Rejected) →
               exited (foldl deliver s events) = true
               ∨ ∀ i, replies (foldl deliver s events) !! i ≠ Some Rejected)
    as Hgen.
  { induction events as [|e events IH]; simpl; [done |].
    intros s Hs. apply IH. unfold deliver.
    destruct (exited s) eqn:Hex; [by left |].
    destruct Hs as [? | Hs]; [congruence |]. by apply step_replies. }
  intros Hlive. destruct (Hgen initial) as [Hex | Hrep]; [| congruence | done].
  right. intros i. simpl. by rewrite (lookup_empty (M := gmap nat)).
Qed.

End SessionExtras.
